(** * pisa/stages/background/atm_muons.py: the atmospheric muon stage

    A shallow embedding of the [atm_muons] stage of PISA and the
    properties of its curve builder ([_make_prim_unc_spline]) and its
    weight modifier ([setup_function], [apply_function]).

    Numbers.  The stage computes on numpy float64 arrays, and there are
    two readings of them here.  In the exact reading an array is a
    [list Q] and no operation rounds or overflows; it carries what does
    not depend on rounding: which arrays are read and written, their
    lengths, the formulas, the algebra of the centring.  The one place
    where it would have to produce a non-finite value, the quotient
    [sum / size] of an empty array, is kept partial ([mean] returns
    [None]), and equalities between computed numbers are stated with
    [==] of [Q].  In the binary64 reading an array is a [list float] of
    IEEE 754 binary64 numbers and every operation is the primitive one,
    with rounding, overflow to an infinity, and NaN; it carries what the
    weight modifier computes digit for digit: values, signs, and what
    happens at the infinities.

    Exceptions.  Python exceptions are values of [exn]; a computation
    that can raise returns a [result].  The only loop without an obvious
    bound, the [while] of the zero repair, runs on fuel and is shown
    never to exhaust it.

    Collaborators.  [scipy.interpolate.interp1d] is taken through the
    interface [Interp1d]; the resource loader is a function from file
    names to tables, and every access to it is logged. *)

From Stdlib Require Import QArith Qminmax Lqa String Ascii Floats.
From stdpp Require Import gmap strings list fin_maps.

Set Warnings "-inexact-float".

Open Scope Q_scope.
Open Scope string_scope.
Open Scope list_scope.

(** ** Exceptions and results *)

Inductive exn : Type :=
| ValueError (msg : string)
| IndexError (index : Z) (size : nat)
| KeyError (key : string)
| IOError (path : string)
| TypeError (msg : string)
| NotImplementedError (msg : string).

Inductive result (A : Type) : Type :=
| Ok (a : A)
| Raise (e : exn)
| OutOfFuel.

Arguments Ok {A} a.
Arguments Raise {A} e.
Arguments OutOfFuel {A}.

#[global] Instance result_ret : MRet result := fun A a => Ok a.

#[global] Instance result_bind : MBind result := fun A B f m =>
  match m with
  | Ok a => f a
  | Raise e => Raise e
  | OutOfFuel => OutOfFuel
  end.

(** A [for] loop whose body can raise, threading the loop state. *)
Fixpoint foldM {A S : Type} (body : S -> A -> result S) (s : S) (l : list A)
  : result S :=
  match l with
  | [] => Ok s
  | a :: l' => s' ← body s a; foldM body s' l'
  end.

(** A [for] loop over a list of objects, each replaced by its update. *)
Fixpoint for_each {A B : Type} (body : A -> result B) (l : list A)
  : result (list B) :=
  match l with
  | [] => Ok []
  | a :: l' => b ← body a; bs ← for_each body l'; mret (b :: bs)
  end.

(** ** Computations that touch the resource loader *)

Inductive io_event : Type :=
| OpenResource (path : string).

Definition traced (A : Type) : Type := (result A * list io_event)%type.

#[global] Instance traced_ret : MRet traced := fun A a => (Ok a, []).

#[global] Instance traced_bind : MBind traced := fun A B f m =>
  match m with
  | (Ok a, t) => let '(r, t') := f a in (r, t ++ t')
  | (Raise e, t) => (Raise e, t)
  | (OutOfFuel, t) => (OutOfFuel, t)
  end.

Definition lift {A : Type} (r : result A) : traced A := (r, []).

Definition raise {A : Type} (e : exn) : traced A := (Raise e, []).

(** ** Strings: [str.split] and [in] *)

(** [push c parts] puts [c] in front of the first part. *)
Definition push (c : ascii) (parts : list string) : list string :=
  match parts with
  | [] => [String c ""]
  | p :: ps => String c p :: ps
  end.

(** The scan of [str.split(sep)], from left to right over [s].  [skip] is
    the number of characters of an occurrence of [sep] still to be passed
    over; when it is [0] and [sep] starts here, the current part ends. *)
Fixpoint split_go (sep : string) (skip : nat) (s : string) : list string :=
  match skip, s with
  | S k, String _ s' => split_go sep k s'
  | S _, "" => [""]
  | O, "" => [""]
  | O, String c s' =>
      if String.prefix sep s
      then "" :: split_go sep (String.length sep - 1) s'
      else push c (split_go sep 0 s')
  end.

(** [s.split(sep)]; Python raises [ValueError] on an empty separator. *)
Definition split (sep s : string) : result (list string) :=
  match sep with
  | "" => Raise (ValueError "empty separator")
  | _ => Ok (split_go sep 0 s)
  end.

(** [parts[-1]] on a list of strings. *)
Definition last_part (parts : list string) : result string :=
  match last parts with
  | Some p => Ok p
  | None => Raise (IndexError (-1) 0)
  end.

(** [sub in s] on strings. *)
Fixpoint contains (sub s : string) : bool :=
  String.prefix sub s ||
  match s with
  | "" => false
  | String _ s' => contains sub s'
  end.

(** ** Arrays of numbers *)

(** [a[i]] for [0 <= i]. *)
Definition getitem (a : list Q) (i : nat) : result Q :=
  match a !! i with
  | Some v => Ok v
  | None => Raise (IndexError (Z.of_nat i) (length a))
  end.

(** [a[-1]]. *)
Definition getitem_last (a : list Q) : result Q :=
  match last a with
  | Some v => Ok v
  | None => Raise (IndexError (-1) 0)
  end.

(** [v in a] and [np.where(a == v)[0]]. *)
Definition array_contains (v : Q) (a : list Q) : bool :=
  existsb (fun y => Qeq_bool y v) a.

Fixpoint where_from (i : nat) (v : Q) (a : list Q) : list nat :=
  match a with
  | [] => []
  | y :: a' =>
      if Qeq_bool y v then i :: where_from (S i) v a'
      else where_from (S i) v a'
  end.

Definition where_eq (a : list Q) (v : Q) : list nat := where_from 0 v a.

(** [np.insert(a, 0, v)] and [np.append(a, v)]. *)
Definition np_insert0 (a : list Q) (v : Q) : list Q := v :: a.
Definition np_append (a : list Q) (v : Q) : list Q := a ++ [v].

(** [a.sum()] and [a.size]. *)
Definition sum (a : list Q) : Q := fold_right Qplus 0 a.
Definition size (a : list Q) : nat := length a.

(** [a.sum() / a.size].  For the empty array numpy divides [0.0] by [0]
    and yields [nan]: no number, [None] here. *)
Definition mean (a : list Q) : option Q :=
  match size a with
  | O => None
  | S _ => Some (sum a / inject_Z (Z.of_nat (size a)))
  end.

(** The upper bound of [np.clip] can be [np.inf]. *)
Inductive bound : Type :=
| finite (q : Q)
| inf.

Definition minimum (x : Q) (b : bound) : Q :=
  match b with
  | finite q => Qmin x q
  | inf => x
  end.

(** [np.clip(x, a_min, a_max)] on one element. *)
Definition clip (x a_min : Q) (a_max : bound) : Q :=
  minimum (Qmax x a_min) a_max.

(** [ws *= fs] on one-dimensional arrays: element by element when the
    shapes agree, a one-element [fs] is broadcast, any other pair of
    shapes is rejected by numpy. *)
Definition imul (ws fs : list Q) : result (list Q) :=
  if decide (length fs = length ws) then Ok (zip_with Qmult ws fs)
  else match fs with
       | [f] => Ok (map (fun w => w * f) ws)
       | _ => Raise (ValueError "operands could not be broadcast together")
       end.

(** ** The array of a calibration table

    [np.genfromtxt] squeezes what it has read: a table of two or more
    rows [(x, y)] comes as a two-dimensional array, whose transpose has
    the x-values in row [0] and the y-values in row [1]; a table of one
    row comes as the one-dimensional array [[x, y]] and an empty table
    as the empty one-dimensional array, and [.T] leaves both as they
    are. *)

Inductive ndarray : Type :=
| Vector (a : list Q)
| Matrix (row0 row1 : list Q).

Definition squeeze_T (rows : list (Q * Q)) : ndarray :=
  match rows with
  | [] => Vector []
  | [(x, y)] => Vector [x; y]
  | _ => Matrix (map fst rows) (map snd rows)
  end.

Definition not_iterable : string :=
  "argument of type 'numpy.float64' is not iterable".

(** [uncdata[1]] as the operand of [in], where the [while] of the zero
    repair first meets the array: row [1] of a two-dimensional array is
    an array; a one-dimensional array has a number at index [1], which
    [in] refuses with [TypeError], or no index [1] at all.  The result
    is the pair of the rows [uncdata[0]] and [uncdata[1]]. *)
Definition rows_of (uncdata : ndarray) : result (list Q * list Q) :=
  match uncdata with
  | Vector a => v ← getitem a 1; Raise (TypeError not_iterable)
  | Matrix row0 row1 => Ok (row0, row1)
  end.

(** ** The interpolation library

    [scipy.interpolate.interp1d(x, y, kind=...)] builds a curve object
    from the knots [(x, y)]; calling the curve evaluates it.  Both can
    raise.  The stage uses nothing else of the library. *)

Class Interp1d : Type := {
  curve : Type;
  interp1d : list Q -> list Q -> string -> result curve;
  call : curve -> Q -> result Q
}.

(** [xs] is strictly increasing. *)
Fixpoint increasing (xs : list Q) : Prop :=
  match xs with
  | [] => True
  | x :: xs' =>
      match xs' with
      | [] => True
      | x' :: _ => x < x' /\ increasing xs'
      end
  end.

(** [xs] is sorted: no entry is above a later one. *)
Fixpoint nondecreasing (xs : list Q) : Prop :=
  match xs with
  | [] => True
  | x :: xs' => Forall (fun b => x <= b) xs' /\ nondecreasing xs'
  end.

(** What interpolation means: when every knot at an x-value carries
    the same y-value, the curve at that x-value is that y-value.  The
    knots may come in any order ([interp1d] sorts them), and x-values
    may repeat. *)
Class Interp1dKnots (I : Interp1d) : Prop :=
  knots : forall xs ys kind f i x y,
    interp1d xs ys kind = Ok f ->
    (2 <= length xs)%nat ->
    xs !! i = Some x ->
    ys !! i = Some y ->
    (forall j x' y',
        xs !! j = Some x' -> ys !! j = Some y' -> x' == x -> y' == y) ->
    exists v, call f x = Ok v /\ v == y.

(** *** A piecewise linear interpolator

    An instance of the interface in the manner of [interp1d] with
    [kind='linear'] on one-dimensional float64 arrays, where the call
    is handed to [np.interp]: the knots are sorted by [x] when the curve
    is built; a call outside the range of the knots raises; inside, the
    last knot at or before the point is found, its y-value is the
    result when the point is on it or it is the last knot, and
    otherwise the line to the next knot is followed. *)

Definition Qlt_bool (a b : Q) : bool := negb (Qle_bool b a).

Fixpoint insert_point (p : Q * Q) (l : list (Q * Q)) : list (Q * Q) :=
  match l with
  | [] => [p]
  | q :: l' =>
      if Qlt_bool q.1 p.1 then q :: insert_point p l' else p :: l
  end.

Definition sort_points (l : list (Q * Q)) : list (Q * Q) :=
  fold_right insert_point [] l.

(** On sorted [xs], the number of entries [<= v]. *)
Fixpoint bisect_right (xs : list Q) (v : Q) : nat :=
  match xs with
  | [] => O
  | x :: xs' => if Qle_bool x v then S (bisect_right xs' v) else O
  end.

Record linear_curve : Type := { points : list (Q * Q) }.

Definition linear_interp1d (xs ys : list Q) (kind : string)
  : result linear_curve :=
  if negb (String.eqb kind "linear")
  then Raise (NotImplementedError kind)
  else if negb (length xs =? length ys)%nat
  then Raise (ValueError "x and y arrays must be equal in length")
  else Ok {| points := sort_points (zip xs ys) |}.

Definition linear_call (f : linear_curve) (x_new : Q) : result Q :=
  let xs := map fst (points f) in
  let ys := map snd (points f) in
  x_first ← getitem xs 0;
  x_last ← getitem_last xs;
  if Qlt_bool x_new x_first
  then Raise (ValueError "A value in x_new is below the interpolation range.")
  else if Qlt_bool x_last x_new
  then Raise (ValueError "A value in x_new is above the interpolation range.")
  else
    let j := (bisect_right xs x_new - 1)%nat in
    x_j ← getitem xs j;
    y_j ← getitem ys j;
    if (j =? length xs - 1)%nat || Qeq_bool x_j x_new
    then Ok y_j
    else
      x_next ← getitem xs (j + 1);
      y_next ← getitem ys (j + 1);
      let slope := (y_next - y_j) / (x_next - x_j) in
      Ok (slope * (x_new - x_j) + y_j).

Definition linear : Interp1d :=
  {| curve := linear_curve;
     interp1d := linear_interp1d;
     call := linear_call |}.

(** ** The stage *)

(** The five parameters; [.value] and the conversion to a dimensionless
    magnitude are the identity on them. *)
Record Params : Type := {
  atm_muon_scale : Q;
  delta_gamma_mu_file : string;
  delta_gamma_mu_spline_kind : string;
  delta_gamma_mu_variable : string;
  delta_gamma_mu : Q
}.

(** [container[key]]. *)
Definition lookup_key (c : gmap string (list Q)) (key : string)
  : result (list Q) :=
  match c !! key with
  | Some a => Ok a
  | None => Raise (KeyError key)
  end.

(** One pass of the [for] loop of the zero repair: the indices of the
    zeros are taken first, then each is overwritten, in place and in
    order, by its right neighbour.  [uncdata[1][zero_index+1]] past the
    end raises [IndexError]. *)
Definition fill_at (ys : list Q) (zero_index : nat) : result (list Q) :=
  v ← getitem ys (zero_index + 1);
  mret (<[zero_index := v]> ys).

Definition fill_pass (ys : list Q) : result (list Q) :=
  let zero_indices := where_eq ys 0 in
  foldM fill_at ys zero_indices.

(** [while 0.0 in uncdata[1]: ...] *)
Fixpoint zero_fill_loop (fuel : nat) (ys : list Q) : result (list Q) :=
  match fuel with
  | O => OutOfFuel
  | S fuel' =>
      if array_contains 0 ys
      then ys' ← fill_pass ys; zero_fill_loop fuel' ys'
      else Ok ys
  end.

Definition zero_fill (ys : list Q) : result (list Q) :=
  zero_fill_loop (S (length ys)) ys.

Definition unsupported_variable (variable : string) : string :=
  "Muon primary cosmic ray systematic is currently only " +:+
  "implemented as a function of cos(zenith). " +:+ variable +:+
  " was set in the " +:+ "configuration file.".

Definition file_mismatch (variable file : string) : string :=
  "Variable set in configuration file is " +:+ variable +:+
  " but the file you " +:+ "have selected, " +:+ file +:+
  ", does not make reference to this in its " +:+ "name.".

Section Stage.

Context {I : Interp1d}.

(** The resource loader and [np.genfromtxt]: the rows [(x, y)] of the
    table a file name resolves to, [None] when it cannot be read. *)
Variable resource : string -> option (list (Q * Q)).

(** [np.genfromtxt(open_resource(path)).T] *)
Definition genfromtxt_T (path : string) : traced ndarray :=
  (match resource path with
   | Some rows => Ok (squeeze_T rows)
   | None => Raise (IOError path)
   end, [OpenResource path]).

Record Stage : Type := {
  params : Params;
  data : list (gmap string (list Q));
  prim_unc_spline : option curve
}.

(** [.split('true_')[-1]] *)
Definition bare_variable_of (variable : string) : result string :=
  parts ← split "true_" variable;
  last_part parts.

Definition _make_prim_unc_spline (p : Params) : traced curve :=
  bare_variable ← lift (bare_variable_of (delta_gamma_mu_variable p));
  if negb (String.eqb bare_variable "coszen")
  then raise (ValueError (unsupported_variable (delta_gamma_mu_variable p)))
  else if negb (contains bare_variable (delta_gamma_mu_file p))
  then raise (ValueError (file_mismatch (delta_gamma_mu_variable p)
                                         (delta_gamma_mu_file p)))
  else
    uncdata ← genfromtxt_T (delta_gamma_mu_file p);
    uncdata ← lift (rows_of uncdata);
    uncdata1 ← lift (zero_fill uncdata.2);
    let xvals := np_insert0 uncdata.1 0.0 in
    let xvals := np_append xvals 1.0 in
    first ← lift (getitem uncdata1 0);
    let yvals := np_insert0 uncdata1 first in
    final ← lift (getitem_last uncdata1);
    let yvals := np_append yvals final in
    lift (interp1d xvals yvals (delta_gamma_mu_spline_kind p)).

(** The curve called on an array. *)
Definition call_array (f : curve) (xs : list Q) : result (list Q) :=
  for_each (call f) xs.

(** [rw_array - norm]; the empty array stays empty whatever [norm]. *)
Definition shift_down (a : list Q) (norm : option Q) : list Q :=
  match norm with
  | Some n => map (fun r => r - n) a
  | None => []
  end.

(** The body of the loop of [setup_function]. *)
Definition setup_container (f : curve) (rw_variable : string)
    (container : gmap string (list Q)) : result (gmap string (list Q)) :=
  xs ← lookup_key container rw_variable;
  rw ← call_array f xs;
  let container := <["rw_array" := rw]> container in
  rw_array ← lookup_key container "rw_array";
  let norm := mean rw_array in
  rw_array ← lookup_key container "rw_array";
  mret (<["cr_rw_array" := shift_down rw_array norm]> container).

(** The assignment of [self.data.representation] is bookkeeping of the
    framework and has no counterpart here. *)
Definition setup_function (st : Stage) : traced Stage :=
  f ← _make_prim_unc_spline (params st);
  let rw_variable := delta_gamma_mu_variable (params st) in
  data' ← lift (for_each (setup_container f rw_variable) (data st));
  mret {| params := params st; data := data'; prim_unc_spline := Some f |}.

(** The body of the loop of [apply_function]. *)
Definition apply_container (atm_muon_scale cr_rw_scale : Q)
    (container : gmap string (list Q)) : result (gmap string (list Q)) :=
  cr_rw_array ← lookup_key container "cr_rw_array";
  let weight_mod := map (fun c => 1 + cr_rw_scale * c) cr_rw_array in
  weights ← lookup_key container "weights";
  let factor := map (fun m => clip (m * atm_muon_scale) 0 inf) weight_mod in
  weights' ← imul weights factor;
  mret (<["weights" := weights']> container).

Definition apply_function (st : Stage) : result Stage :=
  let atm_muon_scale := atm_muon_scale (params st) in
  let cr_rw_scale := delta_gamma_mu (params st) in
  data' ← for_each (apply_container atm_muon_scale cr_rw_scale) (data st);
  mret {| params := params st; data := data';
          prim_unc_spline := prim_unc_spline st |}.

End Stage.

(** ** The weight modifier in binary64

    The arithmetic of [apply_function] as the stage runs it: the arrays
    hold float64 numbers and every array operation is one IEEE 754
    binary64 operation per element, rounded to nearest, with signed
    zeros, infinities and NaN.  The definitions follow the source line
    by line as [apply_container] does; what differs is the numbers. *)

(** The loop of [np.clip] on floating-point numbers: a NaN is kept,
    otherwise the larger (then the smaller) of the two is taken by
    comparison. *)
Definition maximum64 (a b : float) : float :=
  if is_nan a then a else if (b <? a)%float then a else b.

Definition minimum64 (a b : float) : float :=
  if is_nan a then a else if (a <? b)%float then a else b.

Definition clip64 (x a_min a_max : float) : float :=
  minimum64 (maximum64 x a_min) a_max.

Definition lookup_key64 (c : gmap string (list float)) (key : string)
  : result (list float) :=
  match c !! key with
  | Some a => Ok a
  | None => Raise (KeyError key)
  end.

Definition imul64 (ws fs : list float) : result (list float) :=
  if decide (length fs = length ws) then Ok (zip_with PrimFloat.mul ws fs)
  else match fs with
       | [f] => Ok (map (fun w => w * f)%float ws)
       | _ => Raise (ValueError "operands could not be broadcast together")
       end.

Definition apply_container64 (atm_muon_scale cr_rw_scale : float)
    (container : gmap string (list float))
  : result (gmap string (list float)) :=
  cr_rw_array ← lookup_key64 container "cr_rw_array";
  let weight_mod := map (fun c => 1 + cr_rw_scale * c)%float cr_rw_array in
  weights ← lookup_key64 container "weights";
  let factor :=
    map (fun m => clip64 (m * atm_muon_scale) 0 infinity)%float weight_mod in
  weights' ← imul64 weights factor;
  mret (<["weights" := weights']> container).

(** [apply_function] on the values of the two parameters and the
    batches. *)
Definition apply_function64 (atm_muon_scale cr_rw_scale : float)
    (data : list (gmap string (list float)))
  : result (list (gmap string (list float))) :=
  for_each (apply_container64 atm_muon_scale cr_rw_scale) data.

(** ** States of the stage and notions used by the properties *)

(** What is left of the curve construction once the two checks on the
    names have passed and the table has been read. *)
Definition build_from {I : Interp1d} (rows : list (Q * Q)) (kind : string)
  : result curve :=
  uncdata ← rows_of (squeeze_T rows);
  ys ← zero_fill uncdata.2;
  first ← getitem ys 0;
  final ← getitem_last ys;
  interp1d (0.0 :: uncdata.1 ++ [1.0]) (first :: ys ++ [final]) kind.

(** An event batch whose per-event arrays are in place: the weights and
    the two arrays cached by [setup_function], one entry per event. *)
Definition batch_ready (c : gmap string (list Q)) : Prop :=
  exists ws rw cr,
    c !! "weights" = Some ws /\
    c !! "rw_array" = Some rw /\
    c !! "cr_rw_array" = Some cr /\
    length rw = length ws /\
    length cr = length ws.

(** [Unconfigured]: no curve yet.  [Ready]: the curve is built and every
    batch carries its cached arrays. *)
Definition Unconfigured {I : Interp1d} (st : Stage) : Prop :=
  prim_unc_spline st = None.

Definition Ready {I : Interp1d} (st : Stage) : Prop :=
  is_Some (prim_unc_spline st) /\ Forall batch_ready (data st).

(** The factor one event is multiplied by in [apply_function]. *)
Definition weight_factor (atm_muon_scale cr_rw_scale x : Q) : Q :=
  clip ((1 + cr_rw_scale * x) * atm_muon_scale) 0 inf.

Definition weight_factor64 (atm_muon_scale cr_rw_scale x : float) : float :=
  clip64 ((1 + cr_rw_scale * x) * atm_muon_scale) 0 infinity.

(** The same notions for batches of binary64 arrays. *)
Definition batch_ready64 (c : gmap string (list float)) : Prop :=
  exists ws cr,
    c !! "weights" = Some ws /\
    c !! "cr_rw_array" = Some cr /\
    length cr = length ws.

Definition scaled_by64 (s g : float) (c c' : gmap string (list float))
  : Prop :=
  exists ws cr,
    c !! "weights" = Some ws /\
    c !! "cr_rw_array" = Some cr /\
    length cr = length ws /\
    c' = <["weights" := zip_with PrimFloat.mul ws
                                 (map (weight_factor64 s g) cr)]> c.

(** What one run of [apply_function] does to each batch. *)
Definition scaled_by (s g : Q) (c c' : gmap string (list Q)) : Prop :=
  exists ws cr,
    c !! "weights" = Some ws /\
    c !! "cr_rw_array" = Some cr /\
    length cr = length ws /\
    c' = <["weights" := zip_with Qmult ws (map (weight_factor s g) cr)]> c.

(** [s] without its leading [pre], when it starts with [pre]. *)
Fixpoint drop_prefix (pre s : string) : option string :=
  match pre, s with
  | "", _ => Some s
  | String a pre', String b s' =>
      if Ascii.eqb a b then drop_prefix pre' s' else None
  | String _ _, "" => None
  end.

(** The stripping step as the specification words it: a leading [pre]
    is removed, nothing else. *)
Definition strip_leading_prefix (pre s : string) : string :=
  match drop_prefix pre s with
  | Some rest => rest
  | None => s
  end.

(** One pass of the zero repair as a function of the list alone: a zero
    takes the value of its right neighbour as it was before the pass;
    [None] when the last entry is a zero. *)
Fixpoint forward_once (l : list Q) : option (list Q) :=
  match l with
  | [] => Some []
  | y :: l' =>
      if Qeq_bool y 0
      then match l' with
           | [] => None
           | y' :: _ => cons y' <$> forward_once l'
           end
      else cons y <$> forward_once l'
  end.

(** The table the repair ends with: every zero holds the next value to
    its right that is not a zero. *)
Fixpoint forward_fill (l : list Q) : list Q :=
  match l with
  | [] => []
  | y :: l' =>
      let r := forward_fill l' in
      (if Qeq_bool y 0 then hd 0 r else y) :: r
  end.

Definition last_is_zero (l : list Q) : bool :=
  match last l with
  | Some y => Qeq_bool y 0
  | None => false
  end.

Fixpoint count_zeros (l : list Q) : nat :=
  match l with
  | [] => O
  | y :: l' => ((if Qeq_bool y 0 then 1 else 0) + count_zeros l')%nat
  end.

(** ** The scenarios of the specification, on the linear interpolator *)

Definition scenario_table : list (Q * Q) :=
  [(0.1, 2.0); (0.5, 0.0); (0.9, 4.0)].

Definition scenario_resource (path : string) : option (list (Q * Q)) :=
  if String.eqb path "muon_coszen_unc.txt" then Some scenario_table else None.

(** A table that ends with a zero. *)
Definition trailing_zero_resource (path : string) : option (list (Q * Q)) :=
  Some [(0.1, 2.0); (0.9, 0.0)].

(** Tables of one row. *)
Definition one_row_resource (path : string) : option (list (Q * Q)) :=
  Some [(0.5, 2.0)].

Definition one_row_zero_resource (path : string) : option (list (Q * Q)) :=
  Some [(0.5, 0.0)].

Definition scenario_params (variable : string) : Params :=
  {| atm_muon_scale := 1.5;
     delta_gamma_mu_file := "muon_coszen_unc.txt";
     delta_gamma_mu_spline_kind := "linear";
     delta_gamma_mu_variable := variable;
     delta_gamma_mu := 2.0 |}.

Definition scenario_curve : @curve linear :=
  {| points := [(0.0, 2.0); (0.1, 2.0); (0.5, 4.0); (0.9, 4.0); (1.0, 4.0)] |}.

Definition unconfigured (batches : list (gmap string (list Q)))
  : @Stage linear :=
  {| params := scenario_params "true_coszen";
     data := batches;
     prim_unc_spline := None |}.

Definition configured (batches : list (gmap string (list Q)))
  : @Stage linear :=
  {| params := scenario_params "true_coszen";
     data := batches;
     prim_unc_spline := Some scenario_curve |}.

(** Scenario 4: one event, [cr_rw_array = 0.3], weight [10.0]. *)
Definition single_event : gmap string (list Q) :=
  <["weights" := [10.0]]>
    (<["rw_array" := [3.3]]> (<["cr_rw_array" := [0.3]]> ∅)).

(** One event that comes with a negative weight. *)
Definition negative_event : gmap string (list Q) :=
  <["weights" := [-1.0]]>
    (<["rw_array" := [3.0]]> (<["cr_rw_array" := [0.0]]> ∅)).

(** Scenario 4 in binary64. *)
Definition single_event64 : gmap string (list float) :=
  <["weights" := [10.0%float]]>
    (<["rw_array" := [3.3%float]]> (<["cr_rw_array" := [0.3%float]]> ∅)).

(** One event of weight [-1.0] in binary64. *)
Definition negative_event64 : gmap string (list float) :=
  <["weights" := [(-1.0)%float]]>
    (<["rw_array" := [3.0%float]]> (<["cr_rw_array" := [0.0%float]]> ∅)).

(** One event of weight [0.0] whose factor overflows at the scale
    [1e308] and the shift [1e10]. *)
Definition zero_weight_event64 : gmap string (list float) :=
  <["weights" := [0.0%float]]>
    (<["rw_array" := [2.0%float]]> (<["cr_rw_array" := [1.0%float]]> ∅)).

(** Batches as they are before [setup_function]. *)
Definition two_events : gmap string (list Q) :=
  <["true_coszen" := [0.3; 0.7]]> (<["weights" := [10.0; 5.0]]> ∅).

Definition no_events : gmap string (list Q) :=
  <["true_coszen" := []]> (<["weights" := []]> ∅).

(** The curve of scenario 1 at [0.3] and [0.7]: the values [3] and [4]. *)
Definition scenario_rw : list Q :=
  [12000000 # 4000000; 16000000 # 4000000].

(** Two events that carry the same weight, before [setup_function]. *)
Definition uniform_events : gmap string (list Q) :=
  <["true_coszen" := [0.3; 0.7]]> (<["weights" := [10.0; 10.0]]> ∅).

(** One event, before [setup_function]. *)
Definition one_event : gmap string (list Q) :=
  <["true_coszen" := [0.3]]> (<["weights" := [10.0]]> ∅).

(** * Properties *)

(** ** Loops *)

Lemma for_each_Forall2 {A B : Type} (body : A -> result B) l l' :
  for_each body l = Ok l' ->
  Forall2 (fun a b => body a = Ok b) l l'.
Proof.
  revert l'. induction l as [|a l IH]; intros l' H; simpl in H.
  - injection H as <-. constructor.
  - destruct (body a) as [b| |] eqn:Hb; simpl in H; try discriminate.
    destruct (for_each body l) as [bs| |] eqn:Hbs; simpl in H;
      try discriminate.
    injection H as <-. constructor; auto.
Qed.

Lemma Forall2_for_each {A B : Type} (body : A -> result B) l l' :
  Forall2 (fun a b => body a = Ok b) l l' ->
  for_each body l = Ok l'.
Proof.
  induction 1 as [|a b l l' Hab _ IH]; simpl; [reflexivity|].
  rewrite Hab. simpl. rewrite IH. reflexivity.
Qed.

(** ** Clipping *)

Lemma clip_inf_nonneg x : 0 <= clip x 0 inf.
Proof. unfold clip, minimum. apply Q.le_max_r. Qed.

Lemma clip_inf_neg x : x < 0 -> clip x 0 inf == 0.
Proof.
  intros Hx. unfold clip, minimum. apply Q.max_r. apply Qlt_le_weak, Hx.
Qed.

Lemma clip_inf_pos x : 0 <= x -> clip x 0 inf == x.
Proof. intros Hx. unfold clip, minimum. apply Q.max_l, Hx. Qed.


(** ** The weight modifier *)

Lemma imul_same_length ws fs :
  length fs = length ws -> imul ws fs = Ok (zip_with Qmult ws fs).
Proof. intros H. unfold imul. rewrite decide_True; auto. Qed.

Lemma apply_container_ready s g (c : gmap string (list Q)) ws cr :
  c !! "weights" = Some ws ->
  c !! "cr_rw_array" = Some cr ->
  length cr = length ws ->
  apply_container s g c
  = Ok (<["weights" := zip_with Qmult ws (map (weight_factor s g) cr)]> c).
Proof.
  intros Hw Hc Hlen. unfold apply_container, lookup_key.
  rewrite Hc, Hw. simpl. rewrite map_map.
  rewrite imul_same_length by (rewrite length_map; exact Hlen).
  reflexivity.
Qed.

Lemma lookup_scaled ws cr s g i w x :
  ws !! i = Some w ->
  cr !! i = Some x ->
  zip_with Qmult ws (map (weight_factor s g) cr) !! i
  = Some (w * weight_factor s g x).
Proof.
  intros Hw Hx. rewrite lookup_zip_with, Hw. simpl.
  rewrite list_lookup_fmap, Hx. reflexivity.
Qed.

Lemma length_scaled ws cr s g :
  length cr = length ws ->
  length (zip_with Qmult ws (map (weight_factor s g) cr)) = length ws.
Proof.
  intros H. rewrite length_zip_with, length_map. lia.
Qed.

Lemma apply_keeps_ready s g c c' :
  batch_ready c -> apply_container s g c = Ok c' -> batch_ready c'.
Proof.
  intros (ws & rw & cr & Hw & Hrw & Hcr & Hl1 & Hl2) H.
  rewrite (apply_container_ready s g c ws cr Hw Hcr Hl2) in H.
  injection H as <-.
  exists (zip_with Qmult ws (map (weight_factor s g) cr)), rw, cr.
  rewrite lookup_insert_eq, !lookup_insert_ne by discriminate.
  rewrite length_scaled by exact Hl2. auto.
Qed.

(** ** Binary64 arithmetic

    The primitive operations on [float] are specified by their
    counterparts on [spec_float]; the tests of sign and class below are
    read off that specification, and rounding never turns a sign. *)

Section Binary64.

Local Open Scope float_scope.

Lemma SFcompare_refl x : x <> S754_nan -> SFcompare x x = Some Eq.
Proof.
  destruct x as [[|]|[|]| |[|] m e]; try reflexivity; try congruence; intros _;
    simpl; rewrite Z.compare_refl, Pos.compare_cont_refl; reflexivity.
Qed.

Lemma is_nan_spec x :
  is_nan x = match Prim2SF x with S754_nan => true | _ => false end.
Proof.
  unfold is_nan. rewrite FloatAxioms.eqb_spec. unfold SFeqb.
  destruct (Prim2SF x) as [s|s| |s m e] eqn:E; try reflexivity;
    rewrite SFcompare_refl by discriminate; reflexivity.
Qed.

Lemma Prim2SF_zero : Prim2SF 0 = S754_zero false.
Proof. reflexivity. Qed.
Lemma Prim2SF_infinity : Prim2SF infinity = S754_infinity false.
Proof. reflexivity. Qed.

Lemma ltb_zero_l x :
  (0 <? x) = match Prim2SF x with
             | S754_finite false _ _ | S754_infinity false => true
             | _ => false
             end.
Proof.
  rewrite FloatAxioms.ltb_spec, Prim2SF_zero.
  destruct (Prim2SF x) as [s|[|]| |[|] m e]; reflexivity.
Qed.

Lemma ltb_zero_r x :
  (x <? 0) = match Prim2SF x with
             | S754_finite true _ _ | S754_infinity true => true
             | _ => false
             end.
Proof.
  rewrite FloatAxioms.ltb_spec, Prim2SF_zero.
  destruct (Prim2SF x) as [s|[|]| |[|] m e]; reflexivity.
Qed.

Lemma leb_zero_l x :
  (0 <=? x) = match Prim2SF x with
              | S754_zero _ | S754_finite false _ _ | S754_infinity false => true
              | _ => false
              end.
Proof.
  rewrite FloatAxioms.leb_spec, Prim2SF_zero.
  destruct (Prim2SF x) as [s|[|]| |[|] m e]; reflexivity.
Qed.

Lemma leb_zero_r x :
  (x <=? 0) = match Prim2SF x with
              | S754_zero _ | S754_finite true _ _ | S754_infinity true => true
              | _ => false
              end.
Proof.
  rewrite FloatAxioms.leb_spec, Prim2SF_zero.
  destruct (Prim2SF x) as [s|[|]| |[|] m e]; reflexivity.
Qed.

Lemma is_zero_spec x :
  is_zero x = match Prim2SF x with S754_zero _ => true | _ => false end.
Proof.
  unfold is_zero. rewrite FloatAxioms.eqb_spec. change (Prim2SF zero) with (S754_zero false).
  destruct (Prim2SF x) as [s|[|]| |[|] m e]; reflexivity.
Qed.

Lemma is_infinity_spec x :
  is_infinity x = match Prim2SF x with S754_infinity _ => true | _ => false end.
Proof.
  unfold is_infinity. rewrite FloatAxioms.eqb_spec, abs_spec, Prim2SF_infinity.
  destruct (Prim2SF x) as [s|[|]| |[|] m e]; reflexivity.
Qed.

Lemma is_finite_spec x :
  is_finite x = match Prim2SF x with
                | S754_zero _ | S754_finite _ _ _ => true
                | _ => false
                end.
Proof.
  unfold is_finite. rewrite is_nan_spec, is_infinity_spec.
  destruct (Prim2SF x) as [s|[|]| |[|] m e]; reflexivity.
Qed.

Lemma ltb_infinity_r x :
  (x <? infinity) = match Prim2SF x with
                    | S754_nan | S754_infinity false => false
                    | _ => true
                    end.
Proof.
  rewrite FloatAxioms.ltb_spec, Prim2SF_infinity.
  destruct (Prim2SF x) as [s|[|]| |[|] m e]; reflexivity.
Qed.

(** Rounding keeps the sign. *)
Lemma shr_1_nonneg mrs : (0 <= shr_m mrs)%Z -> (0 <= shr_m (shr_1 mrs))%Z.
Proof.
  destruct mrs as [m r s]. destruct m as [|[p|p|]|[p|p|]]; simpl; lia.
Qed.

Lemma iter_pos_inv {A} (P : A -> Prop) (f : A -> A) :
  (forall a, P a -> P (f a)) -> forall n a, P a -> P (SpecFloat.iter_pos f n a).
Proof.
  intros Hf. induction n as [n IH|n IH|]; intros a Ha; simpl; auto.
Qed.

Lemma shr_fexp_nonneg m e l :
  (0 <= m)%Z -> (0 <= shr_m (shr_fexp prec emax m e l).1)%Z.
Proof.
  intros Hm. unfold shr_fexp, shr.
  assert (H0 : (0 <= shr_m (shr_record_of_loc m l))%Z)
    by (destruct l as [|[| |]]; exact Hm).
  destruct (fexp prec emax (Zdigits2 m + e) - e)%Z as [|p|p]; try exact H0.
  cbn [fst]. apply (iter_pos_inv (fun r => (0 <= shr_m r)%Z)); [|exact H0].
  apply shr_1_nonneg.
Qed.

Lemma round_nearest_even_nonneg m l :
  (0 <= m)%Z -> (0 <= round_nearest_even m l)%Z.
Proof.
  intros H. destruct l as [|[| |]]; simpl; try lia.
  destruct (Z.even m); lia.
Qed.

Lemma binary_round_aux_sign sx mx ex lx :
  (0 <= mx)%Z ->
  match binary_round_aux prec emax sx mx ex lx with
  | S754_zero s | S754_infinity s | S754_finite s _ _ => s = sx
  | S754_nan => False
  end.
Proof.
  intros Hm. unfold binary_round_aux.
  pose proof (shr_fexp_nonneg mx ex lx Hm) as H1.
  destruct (shr_fexp prec emax mx ex lx) as [mrs' e'].
  cbn [fst] in H1.
  pose proof (shr_fexp_nonneg
                (round_nearest_even (shr_m mrs') (loc_of_shr_record mrs'))
                e' loc_Exact (round_nearest_even_nonneg _ _ H1)) as H2.
  destruct (shr_fexp prec emax _ e' loc_Exact) as [mrs'' e''].
  cbn [fst] in H2.
  destruct (shr_m mrs'') as [|m|m]; [reflexivity| |lia].
  destruct (e'' <=? emax - prec)%Z; reflexivity.
Qed.


Lemma clip64_sf y :
  Prim2SF (clip64 y 0 infinity)
  = match Prim2SF y with
    | S754_nan => S754_nan
    | S754_finite false m e => S754_finite false m e
    | S754_infinity false => S754_infinity false
    | _ => S754_zero false
    end.
Proof.
  unfold clip64, maximum64.
  rewrite (is_nan_spec y), (ltb_zero_l y).
  destruct (Prim2SF y) as [sy|[|]| |[|] m e] eqn:E; unfold minimum64;
    rewrite ?(is_nan_spec y), ?(ltb_infinity_r y), ?E; try reflexivity;
    exact E.
Qed.

(** The product of a weight and a factor, by cases. *)
Ltac round_sign :=
  match goal with
  | |- context [binary_round_aux prec emax ?s (Zpos ?m) ?e ?l] =>
      let H := fresh in
      pose proof (binary_round_aux_sign s (Zpos m) e l (Pos2Z.is_nonneg m)) as H;
      destruct (binary_round_aux prec emax s (Zpos m) e l) as [?|?| |? ? ?];
      [subst|subst|destruct H|subst]
  end.

Lemma clip64_negative y : (y <? 0) = true -> clip64 y 0 infinity = 0.
Proof.
  intros H. apply Prim2SF_inj. rewrite clip64_sf. rewrite ltb_zero_r in H.
  destruct (Prim2SF y) as [sy|[|]| |[|] m e]; try discriminate; reflexivity.
Qed.

Lemma weight64_sign w y :
  let F := clip64 y 0 infinity in
  let w' := w * F in
  ((0 <=? w) = true -> (0 <=? w') = negb (is_nan w')) /\
  ((0 <=? w) = true ->
   is_nan w' = is_nan F || (is_zero w && is_infinity F)
               || (is_infinity w && is_zero F)) /\
  ((y <? 0) = true ->
   F = 0 /\
   (is_finite w = true -> is_zero w' = true) /\
   (is_finite w = false -> is_nan w' = true)).
Proof.
  intros F w'.
  assert (HF : (y <? 0) = true -> F = 0) by apply clip64_negative.
  revert HF. subst w' F. intros HF.
  rewrite (leb_zero_l w), (leb_zero_l (w * _)), !is_nan_spec, !is_zero_spec,
    !is_infinity_spec, is_finite_spec.
  rewrite !mul_spec, !clip64_sf. unfold SF64mul.
  split; [|split].
  - destruct (Prim2SF w) as [sw|[|]| |[|] mw ew];
      destruct (Prim2SF y) as [sy|[|]| |[|] my ey];
      cbn [SFmul xorb negb]; intros Hw; try discriminate Hw; try reflexivity;
      round_sign; reflexivity.
  - destruct (Prim2SF w) as [sw|[|]| |[|] mw ew];
      destruct (Prim2SF y) as [sy|[|]| |[|] my ey];
      cbn [SFmul xorb negb orb andb]; intros Hw; try discriminate Hw;
      try reflexivity; round_sign; reflexivity.
  - intros Hy. split; [apply HF, Hy|]. rewrite ltb_zero_r in Hy.
    destruct (Prim2SF w) as [sw|[|]| |[|] mw ew];
      destruct (Prim2SF y) as [sy|[|]| |[|] my ey];
      cbn [SFmul xorb negb orb andb]; try discriminate Hy;
      split; intros Hw; try discriminate Hw; reflexivity.
Qed.


Lemma weight64_keeps_sign w y :
  let F := clip64 y 0 infinity in
  let w' := w * F in
  ((w <=? 0) = true -> (w' <=? 0) = negb (is_nan w')) /\
  (is_zero w = true -> is_zero w' = negb (is_nan w')) /\
  (is_nan w' = false -> is_zero w' = false ->
   is_zero w = false /\ (0 <? y) = true).
Proof.
  intros F w'. subst w' F.
  rewrite (leb_zero_r w), (leb_zero_r (w * _)), !is_nan_spec, !is_zero_spec,
    ltb_zero_l.
  rewrite !mul_spec, !clip64_sf. unfold SF64mul.
  split; [|split].
  - destruct (Prim2SF w) as [sw|[|]| |[|] mw ew];
      destruct (Prim2SF y) as [sy|[|]| |[|] my ey];
      cbn [SFmul xorb negb]; intros Hw; try discriminate Hw; try reflexivity;
      round_sign; reflexivity.
  - destruct (Prim2SF w) as [sw|[|]| |[|] mw ew];
      destruct (Prim2SF y) as [sy|[|]| |[|] my ey];
      cbn [SFmul xorb negb]; intros Hw; try discriminate Hw; reflexivity.
  - destruct (Prim2SF w) as [sw|[|]| |[|] mw ew];
      destruct (Prim2SF y) as [sy|[|]| |[|] my ey];
      cbn [SFmul xorb negb]; intros Hn Hz; try discriminate Hn;
      try discriminate Hz; split; reflexivity.
Qed.

(** [1 * s] and [s * 1] are [s], and [1 + z] is [1] for a zero [z]. *)
Lemma SFmul_comm x y : SFmul prec emax x y = SFmul prec emax y x.
Proof.
  destruct x as [sx|sx| |sx mx ex]; destruct y as [sy|sy| |sy my ey];
    cbn [SFmul]; rewrite ?(xorb_comm sx sy); try reflexivity.
  rewrite (Pos.mul_comm mx my), (Z.add_comm ex ey). reflexivity.
Qed.

Lemma mul64_comm x y : x * y = y * x.
Proof.
  apply Prim2SF_inj. rewrite !mul_spec. apply SFmul_comm.
Qed.

Lemma iter_shr_1_shifted k m :
  SpecFloat.iter_pos shr_1 k
    {| shr_m := Zpos (Pos.iter xO m k); shr_r := false; shr_s := false |}
  = {| shr_m := Zpos m; shr_r := false; shr_s := false |}.
Proof.
  revert m. induction k as [k IH|k IH|]; intros m; cbn [SpecFloat.iter_pos Pos.iter].
  - cbn [shr_1 orb]. rewrite IH, IH. reflexivity.
  - rewrite IH, IH. reflexivity.
  - reflexivity.
Qed.

Lemma digits2_pos_shifted k m :
  Zpos (digits2_pos (Pos.iter xO m k)) = (Zpos (digits2_pos m) + Zpos k)%Z.
Proof.
  induction k as [|k IH] using Pos.peano_ind.
  - cbn [Pos.iter digits2_pos]. lia.
  - rewrite Pos.iter_succ. cbn [digits2_pos]. lia.
Qed.

Lemma SFmul_one_l (x : spec_float) :
  valid_binary x = true ->
  SFmul prec emax (S754_finite false 4503599627370496 (-52)) x = x.
Proof.
  destruct x as [sx|sx| |sx mx ex]; try reflexivity. intros Hv.
  cbn [SpecFloat.valid_binary] in Hv. unfold bounded, canonical_mantissa in Hv.
  apply andb_prop in Hv as [Hc He]. apply Z.eqb_eq in Hc.
  cbn [SFmul xorb].
  change (4503599627370496 * mx)%positive with (Pos.iter xO mx 52).
  assert (E1 : shr_fexp prec emax (Zpos (Pos.iter xO mx 52)) (-52 + ex) loc_Exact
               = ({| shr_m := Zpos mx; shr_r := false; shr_s := false |}, ex)).
  { unfold shr_fexp. cbn [Zdigits2]. rewrite digits2_pos_shifted.
    replace (Zpos (digits2_pos mx) + 52 + (-52 + ex))%Z
      with (Zpos (digits2_pos mx) + ex)%Z by lia.
    rewrite Hc. replace (ex - (-52 + ex))%Z with 52%Z by lia.
    cbn [shr shr_record_of_loc]. rewrite iter_shr_1_shifted.
    f_equal. lia. }
  assert (E2 : shr_fexp prec emax (Zpos mx) ex loc_Exact
               = ({| shr_m := Zpos mx; shr_r := false; shr_s := false |}, ex)).
  { unfold shr_fexp. cbn [Zdigits2]. rewrite Hc, Z.sub_diag. reflexivity. }
  unfold binary_round_aux. rewrite E1.
  cbn [shr_m loc_of_shr_record round_nearest_even]. rewrite E2.
  cbn [shr_m]. rewrite He. reflexivity.
Qed.

Lemma Prim2SF_one : Prim2SF 1 = S754_finite false 4503599627370496 (-52).
Proof. reflexivity. Qed.

Lemma mul64_one_l x : 1 * x = x.
Proof.
  apply Prim2SF_inj. rewrite mul_spec, Prim2SF_one.
  apply SFmul_one_l, Prim2SF_valid.
Qed.

Lemma mul64_one_r x : x * 1 = x.
Proof. rewrite mul64_comm. apply mul64_one_l. Qed.

Lemma add64_one_zero z : is_zero z = true -> 1 + z = 1.
Proof.
  rewrite is_zero_spec. intros H. apply Prim2SF_inj.
  rewrite add_spec, Prim2SF_one.
  destruct (Prim2SF z) as [sz|sz| |sz mz ez]; try discriminate. reflexivity.
Qed.

Lemma mul64_zero_finite g x :
  is_zero g = true -> is_finite x = true -> is_zero (g * x) = true.
Proof.
  rewrite !is_zero_spec, is_finite_spec, mul_spec. unfold SF64mul.
  destruct (Prim2SF g) as [sg|sg| |sg mg eg]; try discriminate.
  destruct (Prim2SF x) as [sx|sx| |sx mx ex]; try discriminate; reflexivity.
Qed.

Lemma clip64_positive s : (0 <? s) = true -> clip64 s 0 infinity = s.
Proof.
  intros H. apply Prim2SF_inj. rewrite clip64_sf. rewrite ltb_zero_l in H.
  destruct (Prim2SF s) as [ss|[|]| |[|] m e]; try discriminate; reflexivity.
Qed.

Lemma weight_factor64_neutral s g x :
  is_zero g = true -> is_finite x = true ->
  weight_factor64 s g x = clip64 s 0 infinity.
Proof.
  intros Hg Hx. unfold weight_factor64.
  rewrite (add64_one_zero _ (mul64_zero_finite g x Hg Hx)), mul64_one_l.
  reflexivity.
Qed.

Lemma weight64_scale_zero w s m :
  let w' := w * clip64 (m * s) 0 infinity in
  is_zero s = true ->
  is_zero w' = negb (is_nan w') /\
  (is_finite m = true -> is_finite w = true -> is_zero w' = true).
Proof.
  intros w' Hs. subst w'. revert Hs.
  rewrite !is_zero_spec, !is_nan_spec, !is_finite_spec.
  rewrite !mul_spec, !clip64_sf, !mul_spec. unfold SF64mul.
  destruct (Prim2SF s) as [ss|ss| |ss ms es]; try discriminate. intros _.
  destruct (Prim2SF m) as [sm|[|]| |[|] mm em];
    destruct (Prim2SF w) as [sw|[|]| |[|] mw ew];
    cbn [SFmul xorb negb]; split; try reflexivity; intros; discriminate.
Qed.

(** *** The weight modifier in binary64, event by event *)

Lemma imul64_same_length ws fs :
  length fs = length ws -> imul64 ws fs = Ok (zip_with PrimFloat.mul ws fs).
Proof. intros H. unfold imul64. rewrite decide_True by exact H. reflexivity. Qed.

Lemma apply_container64_Ok s g (c : gmap string (list float)) ws cr :
  c !! "weights" = Some ws ->
  c !! "cr_rw_array" = Some cr ->
  length cr = length ws ->
  apply_container64 s g c
  = Ok (<["weights" := zip_with PrimFloat.mul ws (map (weight_factor64 s g) cr)]> c).
Proof.
  intros Hw Hc Hlen. unfold apply_container64, lookup_key64.
  rewrite Hc, Hw. simpl. rewrite map_map.
  rewrite imul64_same_length by (rewrite length_map; exact Hlen).
  reflexivity.
Qed.

Lemma apply_function64_event s g (data data' : list (gmap string (list float)))
    j c c' ws cr ws' i w x w' :
  apply_function64 s g data = Ok data' ->
  data !! j = Some c ->
  data' !! j = Some c' ->
  c !! "weights" = Some ws ->
  c !! "cr_rw_array" = Some cr ->
  length cr = length ws ->
  c' !! "weights" = Some ws' ->
  ws !! i = Some w ->
  cr !! i = Some x ->
  ws' !! i = Some w' ->
  w' = w * weight_factor64 s g x.
Proof.
  intros E Hj Hj' Hw Hcr Hlen Hw' Hi Hx Hi'.
  apply for_each_Forall2 in E.
  destruct (Forall2_lookup_l _ _ _ _ _ E Hj) as (c1 & Hj1 & Hc).
  rewrite Hj' in Hj1. injection Hj1 as <-.
  rewrite (apply_container64_Ok s g c ws cr Hw Hcr Hlen) in Hc.
  injection Hc as <-. rewrite lookup_insert_eq in Hw'. injection Hw' as <-.
  rewrite lookup_zip_with, Hi in Hi'. simpl in Hi'.
  rewrite list_lookup_fmap, Hx in Hi'. simpl in Hi'. injection Hi' as <-.
  reflexivity.
Qed.

Lemma apply_function64_single s g (c : gmap string (list float)) ws cr :
  c !! "weights" = Some ws ->
  c !! "cr_rw_array" = Some cr ->
  length cr = length ws ->
  apply_function64 s g [c]
  = Ok [<["weights" := zip_with PrimFloat.mul ws (map (weight_factor64 s g) cr)]> c].
Proof.
  intros Hw Hc Hlen. unfold apply_function64. cbn [for_each].
  rewrite (apply_container64_Ok s g c ws cr Hw Hc Hlen). reflexivity.
Qed.

Lemma apply_container64_one s g (c : gmap string (list float)) w x w' :
  c !! "weights" = Some [w] ->
  c !! "cr_rw_array" = Some [x] ->
  w' = w * weight_factor64 s g x ->
  apply_container64 s g c = Ok (<["weights" := [w']]> c).
Proof.
  intros Hw Hc ->.
  apply (apply_container64_Ok s g c [w] [x] Hw Hc eq_refl).
Qed.

Lemma lookup_cr_after_weights (c : gmap string (list float)) ws :
  (<["weights" := ws]> c) !! "cr_rw_array" = c !! "cr_rw_array".
Proof. apply lookup_insert_ne. discriminate. Qed.

Lemma apply_function64_ready s g (data : list (gmap string (list float))) :
  Forall batch_ready64 data ->
  exists data',
    apply_function64 s g data = Ok data' /\
    Forall2 (scaled_by64 s g) data data'.
Proof.
  intros Hall. unfold apply_function64.
  induction Hall as [|c l (ws & cr & Hw & Hcr & Hl) _ (l' & IH1 & IH2)].
  - exists []. split; [reflexivity|constructor].
  - eexists (_ :: l'). cbn [for_each].
    rewrite (apply_container64_Ok s g c ws cr Hw Hcr Hl), IH1.
    split; [reflexivity|]. constructor; [|exact IH2].
    exists ws, cr. auto.
Qed.

Lemma lookup_scaled64 ws cr s g i w x :
  ws !! i = Some w ->
  cr !! i = Some x ->
  zip_with PrimFloat.mul ws (map (weight_factor64 s g) cr) !! i
  = Some (w * weight_factor64 s g x).
Proof.
  intros Hw Hx. rewrite lookup_zip_with, Hw. simpl.
  rewrite list_lookup_fmap, Hx. reflexivity.
Qed.

Lemma length_scaled64 ws cr s g :
  length cr = length ws ->
  length (zip_with PrimFloat.mul ws (map (weight_factor64 s g) cr)) = length ws.
Proof.
  intros H. rewrite length_zip_with, length_map. lia.
Qed.

Lemma apply_function64_weights s g (data : list (gmap string (list float))) :
  Forall batch_ready64 data ->
  exists data',
    apply_function64 s g data = Ok data' /\
    length data' = length data /\
    forall j c ws cr,
      data !! j = Some c ->
      c !! "weights" = Some ws ->
      c !! "cr_rw_array" = Some cr ->
      exists c' ws',
        data' !! j = Some c' /\
        c' !! "weights" = Some ws' /\
        length ws' = length ws /\
        forall i w x,
          ws !! i = Some w ->
          cr !! i = Some x ->
          ws' !! i = Some (w * clip64 ((1 + g * x) * s) 0 infinity).
Proof.
  intros HR. destruct (apply_function64_ready s g data HR) as (data' & E & H2).
  exists data'. split; [exact E|]. split.
  { symmetry. eapply Forall2_length, H2. }
  intros j c ws cr Hj Hw Hcr.
  destruct (Forall2_lookup_l _ _ _ _ _ H2 Hj) as (c' & Hj' & Hc).
  destruct Hc as (ws0 & cr0 & Hw0 & Hcr0 & Hl & ->).
  rewrite Hw in Hw0. injection Hw0 as <-.
  rewrite Hcr in Hcr0. injection Hcr0 as <-.
  eexists _, _. split; [exact Hj'|].
  split; [apply lookup_insert_eq|].
  split; [apply length_scaled64, Hl|].
  intros i w x Hi Hx. apply (lookup_scaled64 ws cr _ _ i w x Hi Hx).
Qed.

Lemma apply_function64_scenario_4 (c : gmap string (list float)) :
  c !! "weights" = Some [10.0] ->
  c !! "cr_rw_array" = Some [0.3] ->
  apply_function64 1.5 2.0 [c]
  = Ok [<["weights" := [24.000000000000004]]> c].
Proof.
  intros Hw Hc.
  rewrite (apply_function64_single 1.5 2.0 c [10.0] [0.3] Hw Hc eq_refl).
  reflexivity.
Qed.

End Binary64.

Section WeightModifier.

Context {I : Interp1d}.

Lemma apply_function_ready (st : Stage) :
  Ready st ->
  exists st',
    apply_function st = Ok st' /\
    Ready st' /\
    params st' = params st /\
    Forall2 (scaled_by (atm_muon_scale (params st))
                       (delta_gamma_mu (params st)))
            (data st) (data st').
Proof.
  intros [Hs Hall]. unfold apply_function.
  set (s := atm_muon_scale (params st)).
  set (g := delta_gamma_mu (params st)).
  assert (exists data',
             Forall2 (fun c c' => apply_container s g c = Ok c') (data st) data'
             /\ Forall batch_ready data'
             /\ Forall2 (scaled_by s g) (data st) data')
    as (data' & Hrun & Hready & Hscaled).
  { induction Hall as [|c l Hc _ (l' & IH1 & IH2 & IH3)].
    - exists []. repeat constructor.
    - pose proof Hc as (ws & rw & cr & Hw & _ & Hcr & _ & Hl).
      pose proof (apply_container_ready s g c ws cr Hw Hcr Hl) as E.
      eexists (_ :: l'). split; [constructor; [exact E|exact IH1]|].
      split; constructor; auto.
      + eapply apply_keeps_ready; eauto.
      + exists ws, cr. auto. }
  eexists. rewrite (Forall2_for_each _ _ _ Hrun). simpl.
  split; [reflexivity|]. split; [split; [exact Hs|exact Hready]|].
  split; [reflexivity|exact Hscaled].
Qed.

Lemma scaled_by_event s g (c c' : gmap string (list Q)) ws cr ws' i w x w' :
  scaled_by s g c c' ->
  c !! "weights" = Some ws ->
  c !! "cr_rw_array" = Some cr ->
  c' !! "weights" = Some ws' ->
  ws !! i = Some w ->
  cr !! i = Some x ->
  ws' !! i = Some w' ->
  w' = w * weight_factor s g x.
Proof.
  intros (ws0 & cr0 & Hw0 & Hcr0 & Hl & ->) Hw Hcr Hw' Hi Hx Hi'.
  rewrite Hw in Hw0. injection Hw0 as <-.
  rewrite Hcr in Hcr0. injection Hcr0 as <-.
  rewrite lookup_insert_eq in Hw'. injection Hw' as <-.
  rewrite (lookup_scaled ws cr s g i w x Hi Hx) in Hi'.
  injection Hi' as <-. reflexivity.
Qed.



(** C1, as amended.  In the [Ready] state one run of [apply_function]
    succeeds and, in every batch, replaces the weight [w] of each event by
    [w * clip((1 + delta_gamma_mu * cr_rw_array[i]) * atm_muon_scale, 0, inf)];
    so it does on binary64 arrays, where each of the operations rounds.
    For a single event with [cr_rw_array = 0.3], [delta_gamma_mu = 2.0],
    [atm_muon_scale = 1.5] and weight [10.0] the new weight is
    [24.000000000000004], the binary64 number next above [24.0]. *)
Theorem apply_function_multiplies_weights :
  (forall st : Stage,
      Ready st ->
      exists st',
        apply_function st = Ok st' /\
        length (data st') = length (data st) /\
        forall j c ws cr,
          data st !! j = Some c ->
          c !! "weights" = Some ws ->
          c !! "cr_rw_array" = Some cr ->
          exists c' ws',
            data st' !! j = Some c' /\
            c' !! "weights" = Some ws' /\
            length ws' = length ws /\
            forall i w x,
              ws !! i = Some w ->
              cr !! i = Some x ->
              ws' !! i
              = Some (w * clip ((1 + delta_gamma_mu (params st) * x)
                                * atm_muon_scale (params st)) 0 inf)) /\
  (forall (s g : float) (data : list (gmap string (list float))),
      Forall batch_ready64 data ->
      exists data',
        apply_function64 s g data = Ok data' /\
        length data' = length data /\
        forall j c ws cr,
          data !! j = Some c ->
          c !! "weights" = Some ws ->
          c !! "cr_rw_array" = Some cr ->
          exists c' ws',
            data' !! j = Some c' /\
            c' !! "weights" = Some ws' /\
            length ws' = length ws /\
            forall i w x,
              ws !! i = Some w ->
              cr !! i = Some x ->
              ws' !! i
              = Some (w * clip64 ((1 + g * x) * s) 0 infinity)%float) /\
  (forall c : gmap string (list float),
      c !! "weights" = Some [10.0%float] ->
      c !! "cr_rw_array" = Some [0.3%float] ->
      apply_function64 1.5 2.0 [c]
      = Ok [<["weights" := [24.000000000000004%float]]> c]) /\
  24.000000000000004%float = next_up 24.0%float.
Proof.
  split; [|split; [|split]].
  - intros st HR.
    destruct (apply_function_ready st HR) as (st' & E & _ & _ & H2).
    exists st'. split; [exact E|]. split.
    { symmetry. eapply Forall2_length, H2. }
    intros j c ws cr Hj Hw Hcr.
    destruct (Forall2_lookup_l _ _ _ _ _ H2 Hj) as (c' & Hj' & Hc).
    destruct Hc as (ws0 & cr0 & Hw0 & Hcr0 & Hl & ->).
    rewrite Hw in Hw0. injection Hw0 as <-.
    rewrite Hcr in Hcr0. injection Hcr0 as <-.
    eexists _, _. split; [exact Hj'|].
    split; [apply lookup_insert_eq|].
    split; [apply length_scaled, Hl|].
    intros i w x Hi Hx. apply (lookup_scaled ws cr _ _ i w x Hi Hx).
  - apply apply_function64_weights.
  - apply apply_function64_scenario_4.
  - reflexivity.
Qed.

(** C2, as amended.  In binary64, after one run of [apply_function] the
    weight of an event is its old weight times the clamped factor.  An
    event whose weight was [>= 0] has a weight that is [>= 0] or NaN,
    whatever the signs of [delta_gamma_mu], [atm_muon_scale] and
    [cr_rw_array[i]]; it is NaN exactly when the factor is NaN, or one of
    weight and factor is a zero and the other an infinity.  When
    [(1 + delta_gamma_mu * cr_rw_array[i]) * atm_muon_scale] is negative
    the factor is clamped to [0.0]; the new weight is then a zero for
    every finite weight, and NaN for an infinite weight or a NaN. *)
Theorem apply_function_weights_nonneg
    (s g : float) (data data' : list (gmap string (list float)))
    j c c' ws cr ws' i w x w' :
  apply_function64 s g data = Ok data' ->
  data !! j = Some c ->
  data' !! j = Some c' ->
  c !! "weights" = Some ws ->
  c !! "cr_rw_array" = Some cr ->
  length cr = length ws ->
  c' !! "weights" = Some ws' ->
  ws !! i = Some w ->
  cr !! i = Some x ->
  ws' !! i = Some w' ->
  let F := clip64 ((1 + g * x) * s) 0 infinity in
  w' = (w * F)%float /\
  ((0 <=? w)%float = true -> (0 <=? w')%float = negb (is_nan w')) /\
  ((0 <=? w)%float = true ->
   is_nan w' = is_nan F || (is_zero w && is_infinity F)
               || (is_infinity w && is_zero F)) /\
  (((1 + g * x) * s <? 0)%float = true ->
   F = 0%float /\
   (is_finite w = true -> is_zero w' = true) /\
   (is_finite w = false -> is_nan w' = true)).
Proof.
  intros E Hj Hj' Hw Hcr Hlen Hw' Hi Hx Hi' F.
  assert (Ew : w' = (w * F)%float)
    by apply (apply_function64_event s g data data' j c c' ws cr ws' i w x w'
                E Hj Hj' Hw Hcr Hlen Hw' Hi Hx Hi').
  split; [exact Ew|]. rewrite Ew. apply weight64_sign.
Qed.


End WeightModifier.

(** ** The zero repair *)

Section ZeroRepair.

Implicit Types l ys pre : list Q.

Lemma fill_at_app pre y l :
  fill_at (pre ++ y :: l) (length pre)
  = match l with
    | [] => Raise (IndexError (Z.of_nat (length pre + 1)) (length pre + 1))
    | y' :: _ => Ok ((pre ++ [y']) ++ l)
    end.
Proof.
  unfold fill_at, getitem.
  rewrite (lookup_app_r pre) by lia.
  replace (length pre + 1 - length pre)%nat with 1%nat by lia.
  destruct l as [|y' l']; simpl.
  - rewrite length_app. reflexivity.
  - unfold mret, result_ret. f_equal.
    rewrite <- (Nat.add_0_r (length pre)), insert_app_r.
    simpl. rewrite <- app_assoc. reflexivity.
Qed.

(** The loop over the indices, started after [pre], against
    [forward_once] on what is left. *)
Lemma foldM_fill_at pre l :
  foldM fill_at (pre ++ l) (where_from (length pre) 0 l)
  = match forward_once l with
    | Some l2 => Ok (pre ++ l2)
    | None => Raise (IndexError (Z.of_nat (length pre + length l))
                                (length pre + length l))
    end.
Proof.
  revert pre. induction l as [|y l IH]; intros pre.
  - reflexivity.
  - assert (Hstep : forall v : Q,
               where_from (S (length pre)) 0 l
               = where_from (length (pre ++ [v])) 0 l).
    { intros v. rewrite length_app. simpl. f_equal. lia. }
    assert (Herr : forall v : Q,
               (length (pre ++ [v]) + length l = length pre + S (length l))%nat).
    { intros v. rewrite length_app. simpl. lia. }
    cbn [where_from forward_once length].
    destruct (Qeq_bool y 0) eqn:Hy.
    + cbn [foldM]. rewrite fill_at_app.
      destruct l as [|y' l'].
      * reflexivity.
      * cbn [mbind result_bind].
        rewrite (Hstep y'), IH, (Herr y').
        destruct (forward_once (y' :: l')) as [l2|]; simpl; [|reflexivity].
        rewrite <- app_assoc. reflexivity.
    + replace (pre ++ y :: l) with ((pre ++ [y]) ++ l)
        by (rewrite <- app_assoc; reflexivity).
      rewrite (Hstep y), IH, (Herr y).
      destruct (forward_once l) as [l2|]; simpl; [|reflexivity].
      rewrite <- app_assoc. reflexivity.
Qed.

Lemma fill_pass_forward_once ys :
  fill_pass ys
  = match forward_once ys with
    | Some l2 => Ok l2
    | None => Raise (IndexError (Z.of_nat (length ys)) (length ys))
    end.
Proof. apply (foldM_fill_at [] ys). Qed.

Lemma forward_once_None l :
  forward_once l = None <-> last_is_zero l = true.
Proof.
  unfold last_is_zero. induction l as [|y l IH]; simpl.
  - split; discriminate.
  - destruct l as [|y' l'].
    + simpl. destruct (Qeq_bool y 0); split; congruence.
    + change (last (y :: y' :: l')) with (last (y' :: l')).
      rewrite <- IH.
      destruct (Qeq_bool y 0); destruct (forward_once (y' :: l'));
        simpl; split; congruence.
Qed.

Lemma forward_once_Some l :
  last_is_zero l = false -> exists l2, forward_once l = Some l2.
Proof.
  intros H. destruct (forward_once l) as [l2|] eqn:E; [eauto|].
  apply forward_once_None in E. congruence.
Qed.

Lemma forward_once_lookup l l2 :
  forward_once l = Some l2 ->
  length l2 = length l /\
  forall i y, l !! i = Some y ->
              l2 !! i = if Qeq_bool y 0 then l !! (i + 1)%nat else Some y.
Proof.
  revert l2. induction l as [|y l IH]; intros l2 H; simpl in H.
  - injection H as <-. split; [reflexivity|]. intros i y Hi. discriminate.
  - assert (forall h r, forward_once l = Some r ->
              (if Qeq_bool y 0 then l !! 0%nat else Some y) = Some h ->
              length (h :: r) = length (y :: l) /\
              forall i z, (y :: l) !! i = Some z ->
                (h :: r) !! i
                = if Qeq_bool z 0 then (y :: l) !! (i + 1)%nat else Some z)
      as Hgen.
    { intros h r Hr Hh. destruct (IH r Hr) as [Hlen Hlk].
      split; [simpl; congruence|].
      intros [|i] z Hi; simpl in Hi |- *.
      - injection Hi as <-. symmetry. exact Hh.
      - apply Hlk, Hi. }
    destruct (Qeq_bool y 0) eqn:Hy.
    + destruct l as [|y' l']; [discriminate|].
      destruct (forward_once (y' :: l')) as [r|] eqn:Hr; [|discriminate].
      injection H as <-. apply Hgen; reflexivity.
    + destruct (forward_once l) as [r|] eqn:Hr; [|discriminate].
      injection H as <-. apply Hgen; reflexivity.
Qed.

Lemma forward_once_last l l2 :
  forward_once l = Some l2 -> last_is_zero l2 = false.
Proof.
  intros H. pose proof (forward_once_lookup l l2 H) as [Hlen Hlk].
  assert (Hz : last_is_zero l = false).
  { destruct (last_is_zero l) eqn:E; [|reflexivity].
    apply forward_once_None in E. congruence. }
  unfold last_is_zero in *. rewrite last_lookup in *.
  rewrite Hlen. destruct (l !! Nat.pred (length l)) as [y|] eqn:Hy.
  - rewrite (Hlk _ _ Hy), Hz. exact Hz.
  - apply lookup_ge_None in Hy. rewrite lookup_ge_None_2 by lia. reflexivity.
Qed.

Lemma forward_fill_once l l2 :
  forward_once l = Some l2 -> forward_fill l2 = forward_fill l.
Proof.
  revert l2. induction l as [|y l IH]; intros l2 H; simpl in H.
  - injection H as <-. reflexivity.
  - destruct (Qeq_bool y 0) eqn:Hy.
    + destruct l as [|y' l']; [discriminate|].
      destruct (forward_once (y' :: l')) as [r|] eqn:Hr; [|discriminate].
      injection H as <-. cbn [forward_fill]. rewrite Hy.
      rewrite (IH r eq_refl). cbn [forward_fill hd].
      destruct (Qeq_bool y' 0); reflexivity.
    + destruct (forward_once l) as [r|] eqn:Hr; [|discriminate].
      injection H as <-. cbn [forward_fill]. rewrite Hy.
      rewrite (IH r eq_refl). reflexivity.
Qed.

Lemma forward_fill_id l :
  array_contains 0 l = false -> forward_fill l = l.
Proof.
  induction l as [|y l IH]; simpl; [reflexivity|].
  intros H. apply orb_false_elim in H as [Hy Hl].
  rewrite Hy, (IH Hl). reflexivity.
Qed.

Lemma forward_once_count l l2 :
  forward_once l = Some l2 ->
  (count_zeros l2 <= count_zeros l)%nat /\
  (array_contains 0 l = true -> (count_zeros l2 < count_zeros l)%nat).
Proof.
  revert l2. induction l as [|y l IH]; intros l2 H; simpl in H.
  - injection H as <-. split; [reflexivity|discriminate].
  - destruct (Qeq_bool y 0) eqn:Hy.
    + destruct l as [|y' l']; [discriminate|].
      destruct (forward_once (y' :: l')) as [r|] eqn:Hr; [|discriminate].
      injection H as <-. destruct (IH r eq_refl) as [Hle Hlt].
      cbn [count_zeros array_contains existsb] in *. rewrite Hy.
      destruct (Qeq_bool y' 0) eqn:Hy'; simpl in *.
      * specialize (Hlt eq_refl). split; [lia|intros _; lia].
      * split; [lia|intros _; lia].
    + destruct (forward_once l) as [r|] eqn:Hr; [|discriminate].
      injection H as <-. destruct (IH r eq_refl) as [Hle Hlt].
      cbn [count_zeros array_contains existsb] in *. rewrite Hy. simpl.
      split; [lia|]. intros Hc. specialize (Hlt Hc). lia.
Qed.

Lemma count_zeros_length l : (count_zeros l <= length l)%nat.
Proof.
  induction l as [|y l IH]; simpl; [lia|]. destruct (Qeq_bool y 0); lia.
Qed.

Lemma last_zero_contains l : last_is_zero l = true -> array_contains 0 l = true.
Proof.
  unfold last_is_zero. induction l as [|y l IH]; simpl; [discriminate|].
  destruct l as [|y' l'].
  - simpl. intros ->. reflexivity.
  - change (last (y :: y' :: l')) with (last (y' :: l')).
    intros H. rewrite (IH H). apply orb_true_r.
Qed.

Lemma zero_fill_loop_S fuel ys :
  zero_fill_loop (S fuel) ys
  = if array_contains 0 ys
    then ys' ← fill_pass ys; zero_fill_loop fuel ys'
    else Ok ys.
Proof. reflexivity. Qed.

(** The [while] loop with enough fuel. *)
Lemma zero_fill_loop_enough fuel ys :
  (count_zeros ys <= fuel)%nat ->
  zero_fill_loop (S fuel) ys
  = if last_is_zero ys
    then Raise (IndexError (Z.of_nat (length ys)) (length ys))
    else Ok (forward_fill ys).
Proof.
  revert ys. induction fuel as [|fuel IH]; intros ys Hc.
  - simpl. destruct (array_contains 0 ys) eqn:Hz.
    + rewrite fill_pass_forward_once.
      destruct (forward_once ys) as [l2|] eqn:E.
      * apply forward_once_count in E as [_ Hlt]. specialize (Hlt Hz). lia.
      * apply forward_once_None in E. rewrite E. reflexivity.
    + destruct (last_is_zero ys) eqn:E.
      * apply last_zero_contains in E. congruence.
      * rewrite (forward_fill_id ys Hz). reflexivity.
  - rewrite zero_fill_loop_S. destruct (array_contains 0 ys) eqn:Hz.
    + rewrite fill_pass_forward_once.
      destruct (forward_once ys) as [l2|] eqn:E.
      * cbn [mbind result_bind].
        pose proof (forward_once_count ys l2 E) as [_ Hlt].
        specialize (Hlt Hz).
        rewrite IH by lia.
        rewrite (forward_once_last ys l2 E), (forward_fill_once ys l2 E).
        destruct (last_is_zero ys) eqn:E'; [|reflexivity].
        apply forward_once_None in E'. congruence.
      * apply forward_once_None in E. rewrite E. reflexivity.
    + destruct (last_is_zero ys) eqn:E.
      * apply last_zero_contains in E. congruence.
      * rewrite (forward_fill_id ys Hz). reflexivity.
Qed.

Lemma zero_fill_eq ys :
  zero_fill ys
  = if last_is_zero ys
    then Raise (IndexError (Z.of_nat (length ys)) (length ys))
    else Ok (forward_fill ys).
Proof. apply zero_fill_loop_enough, count_zeros_length. Qed.

Lemma zero_fill_loop_no_zero fuel ys ys' :
  zero_fill_loop fuel ys = Ok ys' -> array_contains 0 ys' = false.
Proof.
  revert ys. induction fuel as [|fuel IH]; intros ys H; simpl in H.
  - discriminate.
  - destruct (array_contains 0 ys) eqn:Hz.
    + destruct (fill_pass ys) as [l2| |]; simpl in H; try discriminate.
      eapply IH, H.
    + injection H as <-. exact Hz.
Qed.

End ZeroRepair.

(** ** Strings *)

Section Strings.

Implicit Types s t p sep : string.

Lemma append_nil t : "" +:+ t = t.
Proof. reflexivity. Qed.

Lemma append_cons c s t : String c s +:+ t = String c (s +:+ t).
Proof. reflexivity. Qed.

Lemma append_assoc s t p : (s +:+ t) +:+ p = s +:+ (t +:+ p).
Proof.
  induction s as [|c s IH]; [reflexivity|].
  rewrite !append_cons. f_equal. exact IH.
Qed.

Lemma prefix_cons a sep b s :
  String.prefix (String a sep) (String b s)
  = if ascii_dec a b then String.prefix sep s else false.
Proof. reflexivity. Qed.

Lemma prefix_spec sep s :
  String.prefix sep s = true <-> exists r, s = sep +:+ r.
Proof.
  revert s. induction sep as [|a sep IH]; intros s.
  - destruct s; split; eauto.
  - destruct s as [|b s].
    + split; [discriminate|]. intros [r Hr]. discriminate.
    + rewrite prefix_cons. destruct (ascii_dec a b) as [->|Hab].
      * rewrite IH. split; intros [r Hr]; exists r.
        -- rewrite append_cons. congruence.
        -- rewrite append_cons in Hr. congruence.
      * split; [discriminate|]. intros [r Hr].
        rewrite append_cons in Hr. congruence.
Qed.

Lemma prefix_append sep r : String.prefix sep (sep +:+ r) = true.
Proof. apply prefix_spec. eauto. Qed.

Lemma drop_prefix_spec sep s r :
  drop_prefix sep s = Some r <-> s = sep +:+ r.
Proof.
  revert s. induction sep as [|a sep IH]; intros s.
  - simpl. rewrite append_nil. split; congruence.
  - destruct s as [|b s]; [split; discriminate|].
    simpl. rewrite append_cons. destruct (Ascii.eqb_spec a b) as [->|Hab].
    + rewrite IH. split; congruence.
    + split; [discriminate|congruence].
Qed.

Lemma split_go_0 sep c s :
  split_go sep 0 (String c s)
  = if String.prefix sep (String c s)
    then "" :: split_go sep (String.length sep - 1) s
    else push c (split_go sep 0 s).
Proof. reflexivity. Qed.

Lemma split_go_nonempty sep k s : split_go sep k s <> [].
Proof.
  revert k. induction s as [|c s IH]; intros [|k]; try discriminate.
  - rewrite split_go_0. destruct (String.prefix sep (String c s)).
    + discriminate.
    + unfold push. destruct (split_go sep 0 s); discriminate.
  - apply (IH k).
Qed.

(** Passing over the rest of an occurrence. *)
Lemma split_go_skip sep a s :
  split_go sep (String.length a) (a +:+ s) = split_go sep 0 s.
Proof.
  induction a as [|c a IH]; [reflexivity|].
  rewrite append_cons. exact IH.
Qed.

Lemma contains_cons sep c s :
  contains sep (String c s)
  = String.prefix sep (String c s) || contains sep s.
Proof. reflexivity. Qed.

(** Without an occurrence of the separator there is one part. *)
Lemma split_go_clean sep s :
  contains sep s = false -> split_go sep 0 s = [s].
Proof.
  induction s as [|c s IH]; [reflexivity|].
  rewrite contains_cons, split_go_0.
  intros H. apply orb_false_elim in H as [Hp Hc].
  rewrite Hp, (IH Hc). reflexivity.
Qed.

Lemma contains_suffix sep a s :
  contains sep (a +:+ s) = false -> contains sep s = false.
Proof.
  induction a as [|c a IH]; [auto|].
  rewrite append_cons, contains_cons.
  intros H. apply orb_false_elim in H as [_ H]. auto.
Qed.

(** A match of ["true_"] at the head of [s]. *)
Lemma split_go_true_ r :
  split_go "true_" 0 ("true_" +:+ r) = "" :: split_go "true_" 0 r.
Proof.
  change ("true_" +:+ r) with (String "t" ("rue_" +:+ r)).
  rewrite split_go_0.
  change (String "t" ("rue_" +:+ r)) with ("true_" +:+ r).
  rewrite prefix_append.
  apply (f_equal (cons "")). apply (split_go_skip "true_" "rue_" r).
Qed.

(** ["true_"] does not overlap itself: when it starts [p +:+ "true_" +:+ t]
    with [p] not empty, all of it lies in [p]. *)
Lemma true_in_front c p t r :
  String c p +:+ "true_" +:+ t = "true_" +:+ r ->
  exists p', String c p = "true_" +:+ p' /\ r = p' +:+ "true_" +:+ t.
Proof.
  intros H.
  destruct p as [|c1 [|c2 [|c3 [|c4 p']]]];
    rewrite ?append_cons, ?append_nil in H;
    try (injection H; congruence).
  injection H as -> -> -> -> -> H. exists p'. split; [reflexivity|].
  symmetry. exact H.
Qed.

Lemma push_snoc c front t :
  front <> [] ->
  exists front', front' <> [] /\ push c (front ++ [t]) = front' ++ [t].
Proof.
  destruct front as [|f front]; [congruence|]. intros _.
  exists (String c f :: front). split; [discriminate|reflexivity].
Qed.

(** The scan ends every part at an occurrence; the last part is what
    follows the last occurrence. *)
Lemma split_go_after_last t :
  contains "true_" t = false ->
  forall n p, (String.length p <= n)%nat ->
    exists front,
      front <> [] /\
      split_go "true_" 0 (p +:+ "true_" +:+ t) = front ++ [t].
Proof.
  intros Ht. induction n as [|n IH]; intros p Hn.
  - destruct p; [|simpl in Hn; lia]. rewrite append_nil, split_go_true_.
    rewrite (split_go_clean _ _ Ht). exists [""]. split; [discriminate|reflexivity].
  - destruct p as [|c p].
    { rewrite append_nil, split_go_true_.
      rewrite (split_go_clean _ _ Ht). exists [""].
      split; [discriminate|reflexivity]. }
    destruct (String.prefix "true_" (String c p +:+ "true_" +:+ t)) eqn:Hp.
    + apply prefix_spec in Hp as [r Hr].
      destruct (true_in_front c p t r Hr) as (p' & Hp' & ->).
      rewrite Hr, split_go_true_.
      destruct (IH p') as (front & Hf & E).
      { rewrite !append_cons, append_nil in Hp'. injection Hp' as _ ->.
        simpl in Hn. lia. }
      rewrite E. exists ("" :: front). split; [discriminate|reflexivity].
    + rewrite append_cons in Hp |- *. rewrite split_go_0, Hp.
      destruct (IH p) as (front & Hf & E); [simpl in Hn; lia|].
      rewrite E. apply push_snoc, Hf.
Qed.

(** Every string is clean or splits at its last ["true_"]. *)
Lemma last_occurrence s :
  contains "true_" s = false \/
  exists p t, s = p +:+ "true_" +:+ t /\ contains "true_" t = false.
Proof.
  induction s as [|c s IH]; [left; reflexivity|].
  destruct IH as [Hc|(p & t & -> & Ht)].
  - rewrite contains_cons, Hc, orb_false_r.
    destruct (String.prefix "true_" (String c s)) eqn:Hp; [|left; reflexivity].
    right. apply prefix_spec in Hp as [r Hr]. exists "", r.
    split; [exact Hr|].
    assert (Hs : s = "rue_" +:+ r) by (injection Hr; auto).
    rewrite Hs in Hc. eapply contains_suffix, Hc.
  - right. exists (String c p), t. split; [reflexivity|exact Ht].
Qed.

End Strings.

(** ** The variable name *)

Lemma bare_variable_of_eq v :
  bare_variable_of v = last_part (split_go "true_" 0 v).
Proof. reflexivity. Qed.

Lemma bare_variable_total v : exists b, bare_variable_of v = Ok b.
Proof.
  rewrite bare_variable_of_eq. unfold last_part.
  destruct (last (split_go "true_" 0 v)) as [b|] eqn:E; [eauto|].
  apply last_None in E. destruct (split_go_nonempty _ _ _ E).
Qed.

Lemma bare_variable_clean v :
  contains "true_" v = false -> bare_variable_of v = Ok v.
Proof.
  intros H. rewrite bare_variable_of_eq, (split_go_clean _ _ H). reflexivity.
Qed.

Lemma bare_variable_after_last p t :
  contains "true_" t = false ->
  bare_variable_of (p +:+ "true_" +:+ t) = Ok t.
Proof.
  intros H.
  destruct (split_go_after_last t H (String.length p) p (le_n _))
    as (front & _ & E).
  rewrite bare_variable_of_eq, E. unfold last_part. rewrite last_snoc.
  reflexivity.
Qed.

Lemma bare_variable_coszen v :
  bare_variable_of v = Ok "coszen" <->
  v = "coszen" \/ exists p, v = p +:+ "true_coszen".
Proof.
  split.
  - intros H. destruct (last_occurrence v) as [Hc|(p & t & -> & Ht)].
    + rewrite (bare_variable_clean v Hc) in H. injection H as ->. auto.
    + rewrite (bare_variable_after_last p t Ht) in H. injection H as ->.
      right. exists p. reflexivity.
  - intros [->|[p ->]]; [reflexivity|].
    apply (bare_variable_after_last p "coszen"). reflexivity.
Qed.

(** ** The curve builder *)

Lemma length_forward_fill (l : list Q) : length (forward_fill l) = length l.
Proof. induction l as [|y l IH]; simpl; congruence. Qed.

Lemma last_is_zero_spec (l : list Q) :
  last_is_zero l = true <-> exists y, last l = Some y /\ y == 0.
Proof.
  unfold last_is_zero. destruct (last l) as [y|].
  - rewrite Qeq_bool_iff. split; [eauto|]. intros (z & [= <-] & Hz). exact Hz.
  - split; [discriminate|]. intros (z & Hz & _). discriminate.
Qed.

Section CurveBuilder.

Context {I : Interp1d}.
Variable resource : string -> option (list (Q * Q)).

Lemma make_unsupported_variable p :
  bare_variable_of (delta_gamma_mu_variable p) <> Ok "coszen" ->
  _make_prim_unc_spline resource p
  = (Raise (ValueError (unsupported_variable (delta_gamma_mu_variable p))), []).
Proof.
  intros H. unfold _make_prim_unc_spline.
  destruct (bare_variable_total (delta_gamma_mu_variable p)) as [b Hb].
  rewrite Hb in H |- *. simpl.
  destruct (String.eqb_spec b "coszen") as [->|Hne]; [congruence|].
  reflexivity.
Qed.

Lemma make_file_mismatch p :
  bare_variable_of (delta_gamma_mu_variable p) = Ok "coszen" ->
  contains "coszen" (delta_gamma_mu_file p) = false ->
  _make_prim_unc_spline resource p
  = (Raise (ValueError (file_mismatch (delta_gamma_mu_variable p)
                                      (delta_gamma_mu_file p))), []).
Proof.
  intros Hb Hf. unfold _make_prim_unc_spline. rewrite Hb. simpl.
  rewrite Hf. reflexivity.
Qed.

Lemma make_checked p :
  bare_variable_of (delta_gamma_mu_variable p) = Ok "coszen" ->
  contains "coszen" (delta_gamma_mu_file p) = true ->
  _make_prim_unc_spline resource p
  = (match resource (delta_gamma_mu_file p) with
     | Some rows => build_from rows (delta_gamma_mu_spline_kind p)
     | None => Raise (IOError (delta_gamma_mu_file p))
     end, [OpenResource (delta_gamma_mu_file p)]).
Proof.
  intros Hb Hf. unfold _make_prim_unc_spline. rewrite Hb. simpl.
  rewrite Hf. simpl. unfold genfromtxt_T, build_from.
  destruct (resource (delta_gamma_mu_file p)) as [rows|]; [|reflexivity].
  simpl.
  destruct (rows_of (squeeze_T rows)) as [[xs ys0]| |]; try reflexivity.
  simpl.
  destruct (zero_fill ys0) as [ys| |]; try reflexivity.
  unfold mbind, result_bind.
  destruct (getitem ys 0) as [first| |]; try reflexivity.
  destruct (getitem_last ys) as [final| |]; try reflexivity.
Qed.

(** The shape of the array decides at the first test of the [while]. *)
Lemma rows_of_squeeze_T (rows : list (Q * Q)) :
  rows_of (squeeze_T rows)
  = match rows with
    | [] => Raise (IndexError 1 0)
    | [_] => Raise (TypeError not_iterable)
    | _ => Ok (map fst rows, map snd rows)
    end.
Proof. destruct rows as [|[x y] [|r rows]]; reflexivity. Qed.

Lemma rows_of_table (rows : list (Q * Q)) :
  (2 <= length rows)%nat ->
  rows_of (squeeze_T rows) = Ok (map fst rows, map snd rows).
Proof.
  intros H. rewrite rows_of_squeeze_T.
  destruct rows as [|r [|r' rows]]; simpl in H; [lia|lia|reflexivity].
Qed.

Lemma rows_of_Ok (rows : list (Q * Q)) xs ys :
  rows_of (squeeze_T rows) = Ok (xs, ys) ->
  (2 <= length rows)%nat /\ xs = map fst rows /\ ys = map snd rows.
Proof.
  rewrite rows_of_squeeze_T.
  destruct rows as [|r [|r' rows]]; [discriminate|discriminate|].
  intros [= <- <-]. simpl. split; [lia|]. split; reflexivity.
Qed.

Lemma build_from_eq rows kind ys first final :
  (2 <= length rows)%nat ->
  zero_fill (map snd rows) = Ok ys ->
  ys !! 0%nat = Some first ->
  last ys = Some final ->
  build_from rows kind
  = interp1d (0.0 :: map fst rows ++ [1.0]) (first :: ys ++ [final]) kind.
Proof.
  intros H2 Hz H0 Hl. unfold build_from, getitem, getitem_last.
  rewrite (rows_of_table rows H2). simpl.
  rewrite Hz. simpl. rewrite H0. simpl. rewrite Hl. reflexivity.
Qed.



(** C5, as amended.  When the last y-value of a y array is a zero, the
    pass over the zeros reaches it and reads index [size], one past the
    end: the repair raises [IndexError].  For a table of two or more
    rows that ends with a zero the curve construction raises this
    [IndexError], after the file has been read; no table comes out.  A
    table of one row never reaches the repair: whatever its y-value,
    the test of the [while] raises [TypeError]; and for a table without
    rows the test finds no index [1] in the empty array. *)
Theorem zero_repair_last_zero_out_of_bounds :
  (forall ys y,
      last ys = Some y ->
      y == 0 ->
      let past_the_end := IndexError (Z.of_nat (length ys)) (length ys) in
      fill_pass ys = Raise past_the_end /\
      zero_fill ys = Raise past_the_end) /\
  (forall p rows y,
      bare_variable_of (delta_gamma_mu_variable p) = Ok "coszen" ->
      contains "coszen" (delta_gamma_mu_file p) = true ->
      resource (delta_gamma_mu_file p) = Some rows ->
      (2 <= length rows)%nat ->
      last (map snd rows) = Some y ->
      y == 0 ->
      _make_prim_unc_spline resource p
      = (Raise (IndexError (Z.of_nat (length rows)) (length rows)),
         [OpenResource (delta_gamma_mu_file p)])) /\
  (forall p x y,
      bare_variable_of (delta_gamma_mu_variable p) = Ok "coszen" ->
      contains "coszen" (delta_gamma_mu_file p) = true ->
      resource (delta_gamma_mu_file p) = Some [(x, y)] ->
      _make_prim_unc_spline resource p
      = (Raise (TypeError not_iterable),
         [OpenResource (delta_gamma_mu_file p)])) /\
  (forall p,
      bare_variable_of (delta_gamma_mu_variable p) = Ok "coszen" ->
      contains "coszen" (delta_gamma_mu_file p) = true ->
      resource (delta_gamma_mu_file p) = Some [] ->
      _make_prim_unc_spline resource p
      = (Raise (IndexError 1 0), [OpenResource (delta_gamma_mu_file p)])).
Proof.
  assert (forall ys y, last ys = Some y -> y == 0 ->
            let past_the_end := IndexError (Z.of_nat (length ys)) (length ys) in
            fill_pass ys = Raise past_the_end /\
            zero_fill ys = Raise past_the_end) as H.
  { intros ys y Hl Hy.
    assert (Hz : last_is_zero ys = true) by (apply last_is_zero_spec; eauto).
    split.
    - rewrite fill_pass_forward_once.
      apply forward_once_None in Hz. rewrite Hz. reflexivity.
    - rewrite zero_fill_eq, Hz. reflexivity. }
  split; [exact H|]. split; [|split].
  - intros p rows y Hb Hf Hr H2 Hl Hy.
    rewrite (make_checked p Hb Hf), Hr. unfold build_from.
    rewrite (rows_of_table rows H2). simpl.
    destruct (H _ _ Hl Hy) as [_ ->]. rewrite length_map. reflexivity.
  - intros p x y Hb Hf Hr. rewrite (make_checked p Hb Hf), Hr. reflexivity.
  - intros p Hb Hf Hr. rewrite (make_checked p Hb Hf), Hr. reflexivity.
Qed.

(** C6, as amended.  For a table of two or more rows whose repair ends
    with the y-values [ys], the curve is built by [interp1d] from the
    x-values with [0.0] in front and [1.0] behind and from [ys] with its
    first value in front and its last value behind.  When the curve
    that interpolation returns passes through its knots, then, in
    whatever order the table has its rows, the curve at [0.0] is the
    first y-value if no row at [x = 0.0] carries another y-value, and
    the curve at [1.0] is the last y-value if no row at [x = 1.0]
    carries another; so for every table without a row at [0.0] or
    [1.0]. *)
Theorem padding_fixes_the_ends p rows ys first final :
  bare_variable_of (delta_gamma_mu_variable p) = Ok "coszen" ->
  contains "coszen" (delta_gamma_mu_file p) = true ->
  resource (delta_gamma_mu_file p) = Some rows ->
  (2 <= length rows)%nat ->
  zero_fill (map snd rows) = Ok ys ->
  ys !! 0%nat = Some first ->
  last ys = Some final ->
  let xvals := 0.0 :: map fst rows ++ [1.0] in
  let yvals := first :: ys ++ [final] in
  _make_prim_unc_spline resource p
  = (interp1d xvals yvals (delta_gamma_mu_spline_kind p),
     [OpenResource (delta_gamma_mu_file p)]) /\
  (Interp1dKnots I ->
   forall f,
     interp1d xvals yvals (delta_gamma_mu_spline_kind p) = Ok f ->
     ((forall j x y,
          map fst rows !! j = Some x -> ys !! j = Some y ->
          x == 0.0 -> y == first) ->
      exists v, call f 0.0 = Ok v /\ v == first) /\
     ((forall j x y,
          map fst rows !! j = Some x -> ys !! j = Some y ->
          x == 1.0 -> y == final) ->
      exists v, call f 1.0 = Ok v /\ v == final) /\
     (Forall (fun r => ~ r.1 == 0.0 /\ ~ r.1 == 1.0) rows ->
      (exists v, call f 0.0 = Ok v /\ v == first) /\
      (exists v, call f 1.0 = Ok v /\ v == final))).
Proof.
  intros Hb Hf Hr Hrows Hz H0 Hl xvals yvals. split.
  - rewrite (make_checked p Hb Hf), Hr.
    rewrite (build_from_eq rows _ ys first final Hrows Hz H0 Hl). reflexivity.
  - intros HK f Hf'.
    assert (Hlen : length ys = length rows).
    { rewrite zero_fill_eq in Hz. destruct (last_is_zero _); [discriminate|].
      injection Hz as <-. rewrite length_forward_fill, length_map.
      reflexivity. }
    assert (H2 : (2 <= length xvals)%nat).
    { unfold xvals. simpl. rewrite length_app. simpl. lia. }
    assert (Hx1 : xvals !! S (length rows) = Some 1.0).
    { unfold xvals. simpl. rewrite lookup_app_r by (rewrite length_map; lia).
      rewrite length_map, Nat.sub_diag. reflexivity. }
    assert (Hy1 : yvals !! S (length rows) = Some final).
    { unfold yvals. simpl. rewrite lookup_app_r by lia.
      rewrite Hlen, Nat.sub_diag. reflexivity. }
    assert (Hmid : forall j x y,
               xvals !! S j = Some x -> yvals !! S j = Some y ->
               (map fst rows !! j = Some x /\ ys !! j = Some y) \/
               (x = 1.0 /\ y = final)).
    { intros j x y Hjx Hjy.
      change ((map fst rows ++ [1.0]) !! j = Some x) in Hjx.
      change ((ys ++ [final]) !! j = Some y) in Hjy.
      destruct (decide (j < length rows)%nat) as [Hlt|Hge].
      - rewrite lookup_app_l in Hjx by (rewrite length_map; exact Hlt).
        rewrite lookup_app_l in Hjy by (rewrite Hlen; exact Hlt). auto.
      - rewrite lookup_app_r in Hjx by (rewrite length_map; lia).
        rewrite lookup_app_r in Hjy by (rewrite Hlen; lia).
        rewrite length_map in Hjx. rewrite Hlen in Hjy.
        destruct (j - length rows)%nat as [|n]; [|destruct n; discriminate].
        injection Hjx as <-. injection Hjy as <-. auto. }
    assert (Hat0 : (forall j x y,
                       map fst rows !! j = Some x -> ys !! j = Some y ->
                       x == 0.0 -> y == first) ->
                   exists v, call f 0.0 = Ok v /\ v == first).
    { intros Hrow.
      apply (HK xvals yvals _ f 0%nat 0.0 first Hf' H2 eq_refl eq_refl).
      intros [|j] x y Hjx Hjy Hx0.
      - injection Hjy as <-. reflexivity.
      - destruct (Hmid j x y Hjx Hjy) as [[Hrx Hry]|[-> _]].
        + exact (Hrow j x y Hrx Hry Hx0).
        + discriminate Hx0. }
    assert (Hat1 : (forall j x y,
                       map fst rows !! j = Some x -> ys !! j = Some y ->
                       x == 1.0 -> y == final) ->
                   exists v, call f 1.0 = Ok v /\ v == final).
    { intros Hrow.
      apply (HK xvals yvals _ f (S (length rows)) 1.0 final Hf' H2 Hx1 Hy1).
      intros [|j] x y Hjx Hjy Hx0.
      - injection Hjx as <-. discriminate Hx0.
      - destruct (Hmid j x y Hjx Hjy) as [[Hrx Hry]|[_ ->]].
        + exact (Hrow j x y Hrx Hry Hx0).
        + reflexivity. }
    split; [exact Hat0|]. split; [exact Hat1|].
    intros Hends.
    assert (Hno : forall j x, map fst rows !! j = Some x ->
                              ~ x == 0.0 /\ ~ x == 1.0).
    { intros j x Hj. rewrite list_lookup_fmap in Hj.
      destruct (rows !! j) as [r|] eqn:Hr'; [|discriminate].
      injection Hj as <-. eapply Forall_lookup_1 in Hends; [exact Hends|].
      exact Hr'. }
    split; [apply Hat0|apply Hat1]; intros j x y Hj _ Hx;
      destruct (Hno j x Hj) as [N0 N1]; contradiction.
Qed.

(** C7, as amended.  When the text after the last ["true_"] of the
    configured variable name (the whole name when it has none) is not
    ["coszen"], as for ["true_energy"], the curve construction raises
    the [ValueError] of the unsupported variable whatever the files
    hold, and nothing has been read. *)
Theorem unsupported_variable_raises :
  (forall p,
      bare_variable_of (delta_gamma_mu_variable p) <> Ok "coszen" ->
      _make_prim_unc_spline resource p
      = (Raise (ValueError (unsupported_variable (delta_gamma_mu_variable p))),
         [])) /\
  (forall p,
      delta_gamma_mu_variable p = "true_energy" ->
      _make_prim_unc_spline resource p
      = (Raise (ValueError (unsupported_variable "true_energy")), [])).
Proof.
  split.
  - apply make_unsupported_variable.
  - intros p Hv. rewrite <- Hv. apply make_unsupported_variable.
    rewrite Hv. discriminate.
Qed.

(** C8.  When the file name does not contain ["coszen"], the curve
    construction raises a [ValueError] and nothing has been read: the
    one of the unsupported variable when the variable name is refused,
    the one of the mismatch otherwise.  With the variable ["true_coszen"]
    and the file ["muon_coszen_unc.txt"] both checks pass and the file
    is read. *)
Theorem file_mismatch_raises :
  (forall p,
      contains "coszen" (delta_gamma_mu_file p) = false ->
      exists msg,
        _make_prim_unc_spline resource p = (Raise (ValueError msg), []) /\
        (bare_variable_of (delta_gamma_mu_variable p) = Ok "coszen" ->
         msg = file_mismatch (delta_gamma_mu_variable p)
                             (delta_gamma_mu_file p))) /\
  (forall p,
      delta_gamma_mu_variable p = "true_coszen" ->
      delta_gamma_mu_file p = "muon_coszen_unc.txt" ->
      bare_variable_of (delta_gamma_mu_variable p) = Ok "coszen" /\
      contains "coszen" (delta_gamma_mu_file p) = true /\
      _make_prim_unc_spline resource p
      = (match resource "muon_coszen_unc.txt" with
         | Some rows => build_from rows (delta_gamma_mu_spline_kind p)
         | None => Raise (IOError "muon_coszen_unc.txt")
         end, [OpenResource "muon_coszen_unc.txt"])).
Proof.
  split.
  - intros p Hf.
    destruct (bare_variable_total (delta_gamma_mu_variable p)) as [b Hb].
    destruct (String.eqb_spec b "coszen") as [->|Hne].
    + eexists. split; [apply (make_file_mismatch p Hb Hf)|reflexivity].
    + eexists. split; [apply make_unsupported_variable; congruence|].
      congruence.
  - intros p Hv Hf.
    assert (Hb : bare_variable_of (delta_gamma_mu_variable p) = Ok "coszen")
      by (rewrite Hv; reflexivity).
    assert (Hc : contains "coszen" (delta_gamma_mu_file p) = true)
      by (rewrite Hf; reflexivity).
    split; [exact Hb|]. split; [exact Hc|].
    rewrite (make_checked p Hb Hc), Hf. reflexivity.
Qed.

(** C10.  The check on the variable name passes for names that are
    neither ["coszen"] nor ["true_coszen"], such as ["muon_true_coszen"]
    and ["truetrue_coszen"]: the stripping step keeps the text after the
    last ["true_"] anywhere in the name, and the whole name when it has
    none, so a name passes exactly when it is ["coszen"] or ends with
    ["true_coszen"].  Every name that passes after the removal of a
    leading ["true_"] passes here, and not the other way round. *)
Theorem variable_check_is_broader :
  (forall p t,
      contains "true_" t = false ->
      bare_variable_of (p +:+ "true_" +:+ t) = Ok t) /\
  (forall v, contains "true_" v = false -> bare_variable_of v = Ok v) /\
  (forall v,
      bare_variable_of v = Ok "coszen" <->
      v = "coszen" \/ exists p, v = p +:+ "true_coszen") /\
  (forall v,
      strip_leading_prefix "true_" v = "coszen" ->
      bare_variable_of v = Ok "coszen") /\
  (forall p,
      delta_gamma_mu_variable p = "muon_true_coszen" \/
      delta_gamma_mu_variable p = "truetrue_coszen" ->
      contains "coszen" (delta_gamma_mu_file p) = true ->
      delta_gamma_mu_variable p <> "coszen" /\
      delta_gamma_mu_variable p <> "true_" +:+ "coszen" /\
      strip_leading_prefix "true_" (delta_gamma_mu_variable p) <> "coszen" /\
      bare_variable_of (delta_gamma_mu_variable p) = Ok "coszen" /\
      (_make_prim_unc_spline resource p).2
      = [OpenResource (delta_gamma_mu_file p)]) /\
  bare_variable_of "coszen" = Ok "coszen".
Proof.
  split; [exact bare_variable_after_last|].
  split; [exact bare_variable_clean|].
  split; [exact bare_variable_coszen|].
  split.
  - intros v H. apply bare_variable_coszen. unfold strip_leading_prefix in H.
    destruct (drop_prefix "true_" v) as [r|] eqn:E; [|auto].
    apply drop_prefix_spec in E. subst. right. exists "". reflexivity.
  - split; [|reflexivity]. intros p Hv Hf.
    assert (Hb : bare_variable_of (delta_gamma_mu_variable p) = Ok "coszen")
      by (destruct Hv as [->| ->]; reflexivity).
    repeat (split; [destruct Hv as [->| ->]; discriminate|]).
    split; [exact Hb|]. rewrite (make_checked p Hb Hf). reflexivity.
Qed.

End CurveBuilder.

(** ** Centring *)

Lemma inject_succ (n : nat) :
  inject_Z (Z.of_nat (S n)) == 1 + inject_Z (Z.of_nat n).
Proof.
  rewrite Nat2Z.inj_succ. unfold Z.succ. rewrite inject_Z_plus. ring.
Qed.

Lemma sum_shift (n : Q) (l : list Q) :
  sum (map (fun r => r - n) l) == sum l - inject_Z (Z.of_nat (length l)) * n.
Proof.
  induction l as [|r l IH].
  - simpl. ring.
  - cbn [map sum fold_right length]. fold (sum l).
    fold (sum (map (fun r => r - n) l)). rewrite IH, inject_succ. ring.
Qed.

Lemma mean_None (l : list Q) : mean l = None <-> l = [].
Proof. unfold mean, size. destruct l; simpl; split; congruence. Qed.

Lemma mean_Some (l : list Q) :
  l <> [] -> mean l = Some (sum l / inject_Z (Z.of_nat (length l))).
Proof. destruct l; [congruence|reflexivity]. Qed.

Lemma inject_length_nonzero (l : list Q) :
  l <> [] -> ~ inject_Z (Z.of_nat (length l)) == 0.
Proof.
  intros Hl H. destruct l as [|r l]; [congruence|].
  unfold Qeq in H. cbn [Qnum Qden inject_Z length] in H. lia.
Qed.

(** The mean of the shifted array is zero. *)
Lemma mean_shift_down (rw : list Q) :
  rw <> [] ->
  exists norm m,
    mean rw = Some norm /\
    shift_down rw (mean rw) = map (fun r => r - norm) rw /\
    mean (shift_down rw (mean rw)) = Some m /\
    m == 0.
Proof.
  intros Hrw. rewrite (mean_Some rw Hrw).
  set (norm := sum rw / inject_Z (Z.of_nat (length rw))).
  exists norm. eexists. split; [reflexivity|]. split; [reflexivity|].
  unfold shift_down.
  assert (Hne : map (fun r => r - norm) rw <> [])
    by (destruct rw; [congruence|discriminate]).
  split; [apply (mean_Some _ Hne)|].
  rewrite sum_shift, length_map. unfold norm.
  pose proof (inject_length_nonzero rw Hrw). field. assumption.
Qed.

Lemma for_each_length {A B : Type} (body : A -> result B) l l' :
  for_each body l = Ok l' -> length l' = length l.
Proof.
  intros H. apply for_each_Forall2 in H. symmetry. eapply Forall2_length, H.
Qed.

Section Setup.

Context {I : Interp1d}.
Variable resource : string -> option (list (Q * Q)).

Lemma setup_container_Ok f v (c c' : gmap string (list Q)) :
  setup_container f v c = Ok c' ->
  exists xs rw,
    c !! v = Some xs /\
    call_array f xs = Ok rw /\
    c' = <["cr_rw_array" := shift_down rw (mean rw)]> (<["rw_array" := rw]> c).
Proof.
  unfold setup_container, lookup_key. intros H.
  destruct (c !! v) as [xs|]; [|discriminate]. simpl in H.
  destruct (call_array f xs) as [rw| |] eqn:Hrw; try discriminate.
  simpl in H.
  rewrite lookup_insert_eq in H. simpl in H. injection H as <-.
  exists xs, rw. auto.
Qed.

Lemma setup_function_Ok (st st' : Stage) t :
  setup_function resource st = (Ok st', t) ->
  exists f,
    _make_prim_unc_spline resource (params st) = (Ok f, t) /\
    params st' = params st /\
    prim_unc_spline st' = Some f /\
    Forall2 (fun c c' =>
               setup_container f (delta_gamma_mu_variable (params st)) c
               = Ok c')
            (data st) (data st').
Proof.
  unfold setup_function. intros H.
  destruct (_make_prim_unc_spline resource (params st)) as [[f| |] t0];
    simpl in H; try discriminate.
  destruct (for_each _ (data st)) as [data'| |] eqn:E; simpl in H;
    try discriminate.
  rewrite !app_nil_r in H. injection H as <- <-.
  exists f. repeat split. apply for_each_Forall2, E.
Qed.

Lemma length_shift_down (rw : list Q) :
  length (shift_down rw (mean rw)) = length rw.
Proof.
  destruct rw as [|r rw]; [reflexivity|]. unfold shift_down.
  rewrite mean_Some by discriminate. apply length_map.
Qed.

(** [Unconfigured] to [Ready]: a successful [setup_function] on batches
    that hold one weight per event leaves the stage [Ready]. *)
Lemma setup_function_ready (st st' : Stage) t :
  setup_function resource st = (Ok st', t) ->
  Forall (fun c : gmap string (list Q) =>
            exists ws xs,
              c !! "weights" = Some ws /\
              c !! delta_gamma_mu_variable (params st) = Some xs /\
              length ws = length xs) (data st) ->
  Ready st'.
Proof.
  intros H Hall.
  destruct (setup_function_Ok st st' t H) as (f & _ & _ & Hf & H2).
  split; [rewrite Hf; eauto|]. apply Forall_lookup. intros j c' Hj'.
  destruct (Forall2_lookup_r _ _ _ _ _ H2 Hj') as (c & Hj & Hc).
  destruct (proj1 (Forall_lookup _ _) Hall j c Hj) as (ws & xs & Hw & Hxs & Hl).
  destruct (setup_container_Ok _ _ _ _ Hc) as (xs' & rw & Hxs' & Hrw & ->).
  rewrite Hxs in Hxs'. injection Hxs' as <-.
  pose proof (for_each_length _ _ _ Hrw) as Hlen.
  exists ws, rw, (shift_down rw (mean rw)).
  split; [rewrite !lookup_insert_ne by discriminate; exact Hw|].
  split; [rewrite lookup_insert_ne by discriminate; apply lookup_insert_eq|].
  split; [apply lookup_insert_eq|].
  rewrite length_shift_down. split; congruence.
Qed.

(** C3, as amended.  After [setup_function], in every batch with at
    least one event, [cr_rw_array] is [rw_array] with its mean [norm]
    taken off every entry, and the mean of [cr_rw_array] is [0] (exact
    arithmetic).  A batch without events gets an empty [cr_rw_array],
    which has no mean. *)
Theorem setup_centres_rw_array (st st' : Stage) t :
  setup_function resource st = (Ok st', t) ->
  length (data st') = length (data st) /\
  forall j c,
    data st !! j = Some c ->
    exists c' xs rw cr,
      data st' !! j = Some c' /\
      c !! delta_gamma_mu_variable (params st) = Some xs /\
      c' !! "rw_array" = Some rw /\
      c' !! "cr_rw_array" = Some cr /\
      length rw = length xs /\
      length cr = length xs /\
      (xs <> [] ->
       exists norm m,
         mean rw = Some norm /\
         cr = map (fun r => r - norm) rw /\
         mean cr = Some m /\
         m == 0) /\
      (xs = [] -> cr = [] /\ mean cr = None).
Proof.
  intros H. destruct (setup_function_Ok st st' t H) as (f & _ & _ & _ & H2).
  split; [symmetry; eapply Forall2_length, H2|].
  intros j c Hj.
  destruct (Forall2_lookup_l _ _ _ _ _ H2 Hj) as (c' & Hj' & Hc).
  destruct (setup_container_Ok _ _ _ _ Hc) as (xs & rw & Hxs & Hrw & ->).
  pose proof (for_each_length _ _ _ Hrw) as Hlen.
  eexists _, xs, rw, (shift_down rw (mean rw)).
  split; [exact Hj'|]. split; [exact Hxs|].
  split; [rewrite lookup_insert_ne by discriminate; apply lookup_insert_eq|].
  split; [apply lookup_insert_eq|]. split; [exact Hlen|].
  split; [|split].
  - destruct rw; simpl; [exact Hlen|]. rewrite length_map. exact Hlen.
  - intros Hne. assert (Hrw' : rw <> [])
      by (intros ->; destruct xs; [congruence|discriminate]).
    destruct (mean_shift_down rw Hrw') as (norm & m & H1 & H3 & H4 & H5).
    exists norm, m. auto.
  - intros ->. destruct rw; [|discriminate]. split; reflexivity.
Qed.

End Setup.

(** ** The piecewise linear interpolator passes through its knots *)

Section Linear.

Implicit Types xs ys : list Q.

Lemma Qlt_bool_iff a b : Qlt_bool a b = true <-> a < b.
Proof.
  unfold Qlt_bool. rewrite negb_true_iff, <- not_true_iff_false, Qle_bool_iff.
  split; [apply Qnot_le_lt|apply Qlt_not_le].
Qed.

Lemma Qlt_bool_false a b : Qlt_bool a b = false <-> b <= a.
Proof.
  unfold Qlt_bool. rewrite negb_false_iff. apply Qle_bool_iff.
Qed.

Lemma getitem_Some xs i v : xs !! i = Some v -> getitem xs i = Ok v.
Proof. unfold getitem. intros ->. reflexivity. Qed.

Lemma getitem_last_Some xs v : last xs = Some v -> getitem_last xs = Ok v.
Proof. unfold getitem_last. intros ->. reflexivity. Qed.

(** Sorting: [sort_points] permutes the knots and leaves their
    x-values in order. *)
Lemma insert_point_perm p (l : list (Q * Q)) : insert_point p l ≡ₚ p :: l.
Proof.
  induction l as [|q l IH]; [reflexivity|]. cbn [insert_point].
  destruct (Qlt_bool q.1 p.1); [|reflexivity].
  rewrite IH. apply Permutation_swap.
Qed.

Lemma sort_points_perm (l : list (Q * Q)) : sort_points l ≡ₚ l.
Proof.
  induction l as [|p l IH]; [reflexivity|].
  cbn [sort_points fold_right]. fold (sort_points l).
  rewrite insert_point_perm, IH. reflexivity.
Qed.

Lemma insert_point_nondecreasing p (l : list (Q * Q)) :
  nondecreasing (map fst l) -> nondecreasing (map fst (insert_point p l)).
Proof.
  induction l as [|q l IH]; intros Hs; [split; constructor|].
  cbn [insert_point]. cbn [map nondecreasing] in Hs. destruct Hs as [Hall Hs].
  destruct (Qlt_bool q.1 p.1) eqn:E.
  - cbn [map nondecreasing]. split; [|apply IH, Hs].
    rewrite (insert_point_perm p l). cbn [map].
    apply Forall_cons. split; [|exact Hall].
    apply Qlt_le_weak, Qlt_bool_iff, E.
  - apply Qlt_bool_false in E.
    change (nondecreasing (p.1 :: q.1 :: map fst l)).
    cbn [nondecreasing]. split; [|split; assumption].
    apply Forall_cons. split; [exact E|].
    eapply Forall_impl; [exact Hall|].
    intros b Hb. eapply Qle_trans; eassumption.
Qed.

Lemma sort_points_nondecreasing (l : list (Q * Q)) :
  nondecreasing (map fst (sort_points l)).
Proof.
  induction l as [|p l IH]; [exact Logic.I|].
  cbn [sort_points fold_right]. fold (sort_points l).
  apply insert_point_nondecreasing, IH.
Qed.

Lemma nondecreasing_lookup xs i j a b :
  nondecreasing xs ->
  xs !! i = Some a -> xs !! j = Some b -> (i <= j)%nat -> a <= b.
Proof.
  revert i j. induction xs as [|x xs IH]; intros i j Hs Hi Hj Hij;
    [discriminate|].
  destruct Hs as [Hall Hs]. destruct i as [|i].
  - injection Hi as <-. destruct j as [|j].
    + injection Hj as <-. apply Qle_refl.
    + eapply Forall_lookup_1 in Hall; [exact Hall|exact Hj].
  - destruct j as [|j]; [lia|]. eapply (IH i j); eauto. lia.
Qed.

(** The entries that [bisect_right] counts are [<= v]; on sorted [xs]
    where [v] occurs, the last of them is [v]. *)
Lemma bisect_right_le xs v j :
  (j < bisect_right xs v)%nat -> exists b, xs !! j = Some b /\ b <= v.
Proof.
  revert j. induction xs as [|x xs IH]; intros j Hj; cbn [bisect_right] in Hj;
    [lia|].
  destruct (Qle_bool x v) eqn:E; [|lia]. apply Qle_bool_iff in E.
  destruct j as [|j]; [exists x; auto|]. apply IH. lia.
Qed.

Lemma bisect_right_knot xs v k a :
  nondecreasing xs ->
  xs !! k = Some a ->
  a == v ->
  exists j b,
    bisect_right xs v = S j /\ (k <= j)%nat /\ xs !! j = Some b /\ b == v.
Proof.
  revert k. induction xs as [|x xs IH]; intros k Hs Hk Ha; [discriminate|].
  pose proof Hs as [Hall Hs'].
  assert (Hxv : x <= v).
  { rewrite <- Ha.
    eapply (nondecreasing_lookup (x :: xs) 0 k); eauto. lia. }
  cbn [bisect_right]. rewrite (proj2 (Qle_bool_iff x v) Hxv).
  destruct k as [|k].
  - injection Hk as <-.
    destruct (bisect_right xs v) as [|j'] eqn:Hb.
    + exists 0%nat, x. auto.
    + destruct (bisect_right_le xs v j') as (b & Hj' & Hbv); [lia|].
      exists (S j'), b. split; [reflexivity|]. split; [lia|].
      split; [exact Hj'|]. apply Qle_antisym; [exact Hbv|].
      rewrite <- Ha. eapply Forall_lookup_1 in Hall; [exact Hall|exact Hj'].
  - destruct (IH k Hs' Hk Ha) as (j' & b & Hb & Hkj & Hj' & Hbv).
    rewrite Hb. exists (S j'), b. split; [reflexivity|]. split; [lia|].
    split; [exact Hj'|exact Hbv].
Qed.

(** The piecewise linear interpolator meets the contract: at an
    x-value whose knots all carry [y], the curve is [y]. *)
Lemma linear_knots : Interp1dKnots linear.
Proof.
  intros xs ys kind f i x y Hf H2 Hx Hy Hsame.
  cbn [interp1d call linear] in Hf |- *.
  unfold linear_interp1d in Hf.
  destruct (negb (kind =? "linear")%string) eqn:Hk; [discriminate|].
  destruct (Nat.eqb_spec (length xs) (length ys)) as [Hlen|]; [|discriminate].
  cbn [negb] in Hf. injection Hf as <-.
  unfold linear_call. cbn [points].
  set (sl := sort_points (zip xs ys)).
  pose proof (sort_points_nondecreasing (zip xs ys)) as Hs. fold sl in Hs.
  assert (Hlsl : length (map fst sl) = length xs).
  { rewrite length_map. unfold sl.
    rewrite (Permutation_length (sort_points_perm _)), length_zip_with. lia. }
  assert (Hin : (x, y) ∈ sl).
  { unfold sl. rewrite sort_points_perm.
    apply (list_elem_of_lookup_2 _ i), lookup_zip_with_Some. eauto. }
  apply list_elem_of_lookup_1 in Hin as [k Hk'].
  assert (Hkx : map fst sl !! k = Some x)
    by (rewrite list_lookup_fmap, Hk'; reflexivity).
  destruct (lookup_lt_is_Some_2 (map fst sl) 0) as [x0 H0]; [lia|].
  destruct (lookup_lt_is_Some_2 (map fst sl) (Nat.pred (length (map fst sl))))
    as [xn Hn]; [lia|].
  rewrite (getitem_Some _ 0 x0 H0).
  rewrite (getitem_last_Some _ xn) by (rewrite last_lookup; exact Hn).
  cbn [mbind result_bind].
  assert (E0 : Qlt_bool x x0 = false).
  { apply Qlt_bool_false.
    eapply (nondecreasing_lookup _ 0 k); eauto. lia. }
  assert (En : Qlt_bool xn x = false).
  { apply Qlt_bool_false.
    eapply (nondecreasing_lookup _ k (Nat.pred (length (map fst sl)))); eauto.
    apply lookup_lt_Some in Hkx. lia. }
  rewrite E0, En.
  destruct (bisect_right_knot (map fst sl) x k x Hs Hkx (Qeq_refl x))
    as (j & b & Hb & _ & Hj & Hbx).
  rewrite Hb. replace (S j - 1)%nat with j by lia.
  rewrite list_lookup_fmap in Hj.
  destruct (sl !! j) as [[b' yj]|] eqn:Hslj; [|discriminate].
  injection Hj as <-.
  rewrite (getitem_Some (map fst sl) j b')
    by (rewrite list_lookup_fmap, Hslj; reflexivity).
  rewrite (getitem_Some (map snd sl) j yj)
    by (rewrite list_lookup_fmap, Hslj; reflexivity).
  cbn [mbind result_bind].
  rewrite (proj2 (Qeq_bool_iff b' x) Hbx), orb_true_r.
  exists yj. split; [reflexivity|].
  assert (Hin : (b', yj) ∈ zip xs ys).
  { rewrite <- (sort_points_perm (zip xs ys)).
    apply (list_elem_of_lookup_2 _ j). exact Hslj. }
  apply list_elem_of_lookup_1 in Hin as [j0 Hj0].
  apply lookup_zip_with_Some in Hj0 as (x' & y' & [= -> ->] & Hx' & Hy').
  exact (Hsame j0 x' y' Hx' Hy' Hbx).
Qed.

End Linear.

(** ** The scenarios, run *)

(** Lookups in the batches of the scenarios. *)
Ltac lookup_map :=
  unfold single_event, negative_event, two_events, no_events;
  by simplify_map_eq.

(** The scenarios on binary64 arrays. *)
Section Scenarios64.

Local Open Scope float_scope.

Lemma single_event64_cr : single_event64 !! "cr_rw_array" = Some [0.3].
Proof.
  unfold single_event64. rewrite lookup_cr_after_weights.
  rewrite lookup_insert_ne by discriminate. apply lookup_insert_eq.
Qed.

Lemma negative_event64_cr :
  negative_event64 !! "cr_rw_array" = Some [0.0].
Proof.
  unfold negative_event64. rewrite lookup_cr_after_weights.
  rewrite lookup_insert_ne by discriminate. apply lookup_insert_eq.
Qed.

Lemma zero_weight_event64_cr :
  zero_weight_event64 !! "cr_rw_array" = Some [1.0].
Proof.
  unfold zero_weight_event64. rewrite lookup_cr_after_weights.
  rewrite lookup_insert_ne by discriminate. apply lookup_insert_eq.
Qed.

(** A weight of [0.0] whose factor overflows to the infinity: the new
    weight is NaN, which is not [>= 0]. *)
Lemma zero_weight_overflow_is_nan :
  (0 <=? 0.0) = true /\
  weight_factor64 1e308 1e10 1.0 = infinity /\
  apply_function64 1e308 1e10 [zero_weight_event64]
  = Ok [<["weights" := [nan]]> zero_weight_event64] /\
  (0 <=? nan) = false.
Proof.
  split; [reflexivity|]. split; [reflexivity|]. split; [|reflexivity].
  rewrite (apply_function64_single 1e308 1e10 zero_weight_event64 [0.0] [1.0]
             (lookup_insert_eq _ _ _) zero_weight_event64_cr eq_refl).
  reflexivity.
Qed.

(** A weight of [-1.0] and a factor of [1.5], in binary64 as in exact
    arithmetic: the new weight is [-1.5]. *)
Lemma negative_weight_in_binary64 :
  apply_function64 1.5 2.0 [negative_event64]
  = Ok [<["weights" := [-1.5]]> negative_event64] /\
  (0 <=? -1.5) = false.
Proof.
  split; [|reflexivity].
  rewrite (apply_function64_single 1.5 2.0 negative_event64 [-1.0] [0.0]
             (lookup_insert_eq _ _ _) negative_event64_cr eq_refl).
  reflexivity.
Qed.

Lemma orders_differ_in_binary64 :
  let c1 := <["weights" := [24.000000000000004]]> single_event64 in
  let c12 := <["weights" := [8.4]]> c1 in
  let c2 := <["weights" := [3.5]]> single_event64 in
  let c21 := <["weights" := [8.400000000000002]]> c2 in
  apply_container64 1.5 2.0 single_event64 = Ok c1 /\
  apply_container64 0.5 (-1.0) c1 = Ok c12 /\
  apply_container64 0.5 (-1.0) single_event64 = Ok c2 /\
  apply_container64 1.5 2.0 c2 = Ok c21 /\
  (8.4 =? 8.400000000000002) = false.
Proof.
  intros c1 c12 c2 c21.
  split; [apply (apply_container64_one _ _ _ 10.0 0.3);
          [apply lookup_insert_eq|apply single_event64_cr|reflexivity]|].
  split; [apply (apply_container64_one _ _ _ 24.000000000000004 0.3);
          [apply lookup_insert_eq
          |unfold c1; rewrite lookup_cr_after_weights; apply single_event64_cr
          |reflexivity]|].
  split; [apply (apply_container64_one _ _ _ 10.0 0.3);
          [apply lookup_insert_eq|apply single_event64_cr|reflexivity]|].
  split; [apply (apply_container64_one _ _ _ 3.5 0.3);
          [apply lookup_insert_eq
          |unfold c2; rewrite lookup_cr_after_weights; apply single_event64_cr
          |reflexivity]|].
  reflexivity.
Qed.

End Scenarios64.


Lemma negative_event_ready : Ready (configured [negative_event]).
Proof.
  split; [eexists; reflexivity|]. repeat constructor.
  exists [-1.0], [3.0], [0.0]. repeat split; lookup_map.
Defined.

(** One run of [apply_function] on a single batch. *)
Lemma apply_function_single (c : gmap string (list Q)) ws cr :
  c !! "weights" = Some ws ->
  c !! "cr_rw_array" = Some cr ->
  length cr = length ws ->
  apply_function (configured [c])
  = Ok (configured
          [<["weights" := zip_with Qmult ws (map (weight_factor 1.5 2.0) cr)]> c]).
Proof.
  intros Hw Hcr Hl. unfold apply_function. cbn [data configured for_each params
    atm_muon_scale delta_gamma_mu scenario_params].
  rewrite (apply_container_ready 1.5 2.0 c ws cr Hw Hcr Hl). reflexivity.
Qed.

(** Scenario 4, run on binary64 arrays. *)
Lemma apply_function_multiplies_weights_witness :
  apply_function64 1.5 2.0 [single_event64]
  = Ok [<["weights" := [24.000000000000004%float]]> single_event64].
Proof.
  apply (proj1 (proj2 (proj2 (@apply_function_multiplies_weights linear)))
               single_event64).
  - apply lookup_insert_eq.
  - apply single_event64_cr.
Defined.

(** C1 fails as stated: the weight that scenario 4 ends with is not
    [24.0].  The factor [(1 + 2.0 * 0.3) * 1.5] rounds to
    [2.4000000000000004] and the product with [10.0] to
    [24.000000000000004]. *)
Lemma scenario_4_weight_is_not_24 :
  weight_factor64 1.5 2.0 0.3 = 2.4000000000000004%float /\
  apply_function64 1.5 2.0 [single_event64]
  = Ok [<["weights" := [24.000000000000004%float]]> single_event64] /\
  (24.000000000000004 =? 24.0)%float = false.
Proof.
  split; [reflexivity|]. split; [|reflexivity].
  apply apply_function64_scenario_4;
    [apply lookup_insert_eq|apply single_event64_cr].
Qed.

(** C2 fails as stated: an event that comes with the weight [-1.0] and
    whose factor is [1.5] leaves with the weight [-1.5]. *)
Lemma negative_weight_stays_negative :
  Ready (configured [negative_event]) /\
  exists st' c' w',
    apply_function (configured [negative_event]) = Ok st' /\
    data st' !! 0%nat = Some c' /\
    c' !! "weights" = Some [w'] /\
    ~ 0 <= w'.
Proof.
  split; [exact negative_event_ready|].
  eexists _, _, _.
  split; [apply (apply_function_single negative_event [-1.0] [0.0]);
          [lookup_map | lookup_map | reflexivity]|].
  split; [reflexivity|]. split; [apply lookup_insert_eq|].
  intros H. vm_compute in H. apply H. reflexivity.
Qed.

(** Scenario 5: with [delta_gamma_mu = -5.0] and [cr_rw_array = 0.3]
    at the scale [1.0] the combination is [-0.5]; the factor is clamped
    to [0.0] and the weight [10.0] becomes [0.0]. *)
Lemma apply_function_weights_nonneg_witness :
  apply_function64 1.0 (-5.0) [single_event64]
  = Ok [<["weights" := [0.0%float]]> single_event64] /\
  ((1 + -5.0 * 0.3) * 1.0)%float = (-0.5)%float /\
  clip64 ((1 + -5.0 * 0.3) * 1.0) 0 infinity = 0%float /\
  is_zero 0.0 = true /\
  (0 <=? 0.0)%float = negb (is_nan 0.0).
Proof.
  assert (E : apply_function64 1.0 (-5.0) [single_event64]
              = Ok [<["weights" := [0.0%float]]> single_event64]).
  { rewrite (apply_function64_single 1.0 (-5.0) single_event64 [10.0%float]
               [0.3%float] (lookup_insert_eq _ _ _) single_event64_cr eq_refl).
    reflexivity. }
  split; [exact E|]. split; [reflexivity|].
  destruct (apply_function_weights_nonneg 1.0 (-5.0) [single_event64] _
              0%nat single_event64 _ [10.0%float] [0.3%float] [0.0%float]
              0%nat 10.0 0.3 0.0 E eq_refl eq_refl (lookup_insert_eq _ _ _)
              single_event64_cr eq_refl (lookup_insert_eq _ _ _)
              eq_refl eq_refl eq_refl) as (_ & Hpos & _ & Hneg).
  destruct (Hneg eq_refl) as (HF & Hz & _).
  split; [exact HF|]. split; [exact (Hz eq_refl)|exact (Hpos eq_refl)].
Defined.


(** The curve of scenario 1. *)
Lemma scenario_curve_built :
  _make_prim_unc_spline scenario_resource (scenario_params "true_coszen")
  = (Ok scenario_curve, [OpenResource "muon_coszen_unc.txt"]).
Proof. vm_compute. reflexivity. Qed.

(** [setup_function] on a single batch. *)
Lemma setup_function_single (c : gmap string (list Q)) xs rw :
  c !! "true_coszen" = Some xs ->
  call_array scenario_curve xs = Ok rw ->
  setup_function scenario_resource (unconfigured [c])
  = (Ok (configured
           [<["cr_rw_array" := shift_down rw (mean rw)]>
              (<["rw_array" := rw]> c)]),
     [OpenResource "muon_coszen_unc.txt"]).
Proof.
  intros Hxs Hrw. unfold setup_function.
  cbn [params unconfigured data]. rewrite scenario_curve_built.
  cbn [mbind traced_bind for_each delta_gamma_mu_variable scenario_params].
  unfold setup_container, lookup_key. rewrite Hxs.
  cbn [mbind result_bind]. rewrite Hrw. cbn [mbind result_bind].
  rewrite lookup_insert_eq. reflexivity.
Qed.

(** C3 fails as stated: a batch without events is set up with an empty
    [cr_rw_array], and the mean of the empty array is no number. *)
Lemma empty_batch_has_no_mean :
  exists st' t c' cr,
    setup_function scenario_resource (unconfigured [no_events]) = (Ok st', t) /\
    data st' = [c'] /\
    c' !! "cr_rw_array" = Some cr /\
    ~ exists m, mean cr = Some m /\ m == 0.
Proof.
  eexists _, _, _, _.
  split; [apply (setup_function_single no_events [] []);
          [lookup_map|reflexivity]|].
  split; [reflexivity|]. split; [apply lookup_insert_eq|].
  intros (m & Hm & _). discriminate Hm.
Qed.

(** A batch of two events is centred. *)
Lemma setup_centres_rw_array_witness :
  exists st' t c' cr m,
    setup_function scenario_resource (unconfigured [two_events]) = (Ok st', t) /\
    data st' !! 0%nat = Some c' /\
    c' !! "cr_rw_array" = Some cr /\
    mean cr = Some m /\
    m == 0.
Proof.
  destruct (call_array scenario_curve [0.3; 0.7]) as [rw| |] eqn:Hrw;
    [|vm_compute in Hrw; discriminate Hrw..].
  pose proof (setup_function_single two_events [0.3; 0.7] rw
                ltac:(lookup_map) Hrw) as E.
  destruct (@setup_centres_rw_array linear scenario_resource _ _ _ E)
    as [_ H].
  destruct (H 0%nat two_events eq_refl)
    as (c' & xs & rw' & cr & Hc' & Hxs & _ & Hcr & _ & _ & Hmean & _).
  assert (Hne : xs <> []).
  { intros ->. unfold two_events in Hxs. simplify_map_eq. }
  destruct (Hmean Hne) as (norm & m & _ & _ & Hm & H0).
  eexists _, _, c', cr, m.
  split; [exact E|]. split; [exact Hc'|]. split; [exact Hcr|].
  split; [exact Hm|exact H0].
Defined.


(** A table of two rows that ends with a zero: index [2] of [2]. *)
Lemma zero_repair_last_zero_out_of_bounds_witness :
  _make_prim_unc_spline (I:=linear) trailing_zero_resource
                        (scenario_params "true_coszen")
  = (Raise (IndexError 2 2), [OpenResource "muon_coszen_unc.txt"]).
Proof.
  apply (proj1 (proj2 (@zero_repair_last_zero_out_of_bounds linear
                         trailing_zero_resource))
               (scenario_params "true_coszen")
               [(0.1, 2.0); (0.9, 0.0)] 0.0); reflexivity.
Defined.

(** C5 fails as stated: the table of the one row [(0.5, 0.0)] ends with
    a zero, and the repair of its y-values would read index [1] of [1];
    but [np.genfromtxt] returns the one-dimensional array [[0.5, 0.0]],
    [uncdata[1]] is the number [0.0], and the test of the [while]
    raises [TypeError] before any entry is filled. *)
Lemma one_row_never_reaches_the_repair :
  last (map snd [(0.5, 0.0)]) = Some 0.0 /\
  zero_fill (map snd [(0.5, 0.0)]) = Raise (IndexError 1 1) /\
  _make_prim_unc_spline (I:=linear) one_row_zero_resource
                        (scenario_params "true_coszen")
  = (Raise (TypeError not_iterable), [OpenResource "muon_coszen_unc.txt"]).
Proof. repeat split; reflexivity. Qed.

(** The linear curve of scenario 1 at both ends. *)
Lemma padding_fixes_the_ends_witness :
  (exists v, call scenario_curve 0.0 = Ok v /\ v == 2.0) /\
  (exists v, call scenario_curve 1.0 = Ok v /\ v == 4.0).
Proof.
  refine (proj2 (proj2 (proj2 (@padding_fixes_the_ends linear
                   scenario_resource (scenario_params "true_coszen")
                   scenario_table [2.0; 4.0; 4.0] 2.0 4.0 _ _ _ _ _ _ _)
                linear_knots scenario_curve _)) _);
    try reflexivity.
  - simpl. lia.
  - repeat constructor; discriminate.
Defined.

(** C6 fails as stated: the table of the one row [(0.5, 2.0)] has no
    zero to repair, yet no point is put in front of it or behind it and
    no curve is built; the test of the [while] raises [TypeError] on the
    one-dimensional array [[0.5, 2.0]]. *)
Lemma one_row_builds_no_curve :
  zero_fill (map snd [(0.5, 2.0)]) = Ok [2.0] /\
  _make_prim_unc_spline (I:=linear) one_row_resource
                        (scenario_params "true_coszen")
  = (Raise (TypeError not_iterable), [OpenResource "muon_coszen_unc.txt"]).
Proof. split; reflexivity. Qed.

(** C7 fails as stated: ["muon_true_coszen"] does not begin with
    ["true_"], so nothing is stripped from its front and it is not
    ["coszen"]; yet the curve is built from it. *)
Lemma inner_marker_is_accepted :
  strip_leading_prefix "true_" "muon_true_coszen" <> "coszen" /\
  _make_prim_unc_spline scenario_resource (scenario_params "muon_true_coszen")
  = (Ok scenario_curve, [OpenResource "muon_coszen_unc.txt"]).
Proof. split; [discriminate|]. vm_compute. reflexivity. Qed.

(** Scenario 3, run. *)
Lemma unsupported_variable_raises_witness :
  _make_prim_unc_spline (I:=linear) scenario_resource
                        (scenario_params "true_energy")
  = (Raise (ValueError (unsupported_variable "true_energy")), []).
Proof.
  apply (proj1 (@unsupported_variable_raises linear scenario_resource)
               (scenario_params "true_energy")).
  discriminate.
Defined.

(** A file name without ["coszen"]. *)
Lemma file_mismatch_raises_witness :
  exists msg,
    _make_prim_unc_spline (I:=linear) scenario_resource
      {| atm_muon_scale := 1.5;
         delta_gamma_mu_file := "muon_energy_unc.txt";
         delta_gamma_mu_spline_kind := "linear";
         delta_gamma_mu_variable := "true_coszen";
         delta_gamma_mu := 2.0 |}
    = (Raise (ValueError msg), []).
Proof.
  destruct (proj1 (@file_mismatch_raises linear scenario_resource)
              {| atm_muon_scale := 1.5;
                 delta_gamma_mu_file := "muon_energy_unc.txt";
                 delta_gamma_mu_spline_kind := "linear";
                 delta_gamma_mu_variable := "true_coszen";
                 delta_gamma_mu := 2.0 |} eq_refl) as (msg & E & _).
  exists msg. exact E.
Defined.

(** The text after an inner ["true_"]. *)
Lemma variable_check_is_broader_witness :
  bare_variable_of ("muon_" +:+ "true_" +:+ "coszen") = Ok "coszen".
Proof.
  apply (proj1 (@variable_check_is_broader linear scenario_resource)
               "muon_" "coszen").
  reflexivity.
Defined.

(** * Further properties of the stage *)

(** ** The zero repair, continued *)

Section ZeroRepairMore.

Implicit Types l ys : list Q.

Lemma last_is_zero_tail y l :
  l <> [] -> last_is_zero (y :: l) = last_is_zero l.
Proof. destruct l; [congruence|reflexivity]. Qed.

Lemma forward_fill_next l i y' :
  last_is_zero l = false ->
  forward_fill l !! i = Some y' ->
  exists j,
    (i <= j)%nat /\
    l !! j = Some y' /\
    Qeq_bool y' 0 = false /\
    forall k y, (i <= k < j)%nat -> l !! k = Some y -> Qeq_bool y 0 = true.
Proof.
  revert i y'. induction l as [|y l IH]; intros i y' Hl Hi; [discriminate|].
  assert (Htail : l <> [] -> last_is_zero l = false)
    by (intros Hne; rewrite <- (last_is_zero_tail y l Hne); exact Hl).
  cbn [forward_fill] in Hi. destruct i as [|i].
  - cbn [lookup list_lookup] in Hi. injection Hi as Hi.
    destruct (Qeq_bool y 0) eqn:Hy.
    + destruct l as [|y1 l1]; [unfold last_is_zero in Hl; simpl in Hl; congruence|].
      assert (H0 : forward_fill (y1 :: l1) !! 0%nat = Some y')
        by (rewrite <- Hi; reflexivity).
      destruct (IH 0%nat y' (Htail ltac:(discriminate)) H0)
        as (j & _ & Hj & Hnz & Hbetween).
      exists (S j). split; [lia|]. split; [exact Hj|]. split; [exact Hnz|].
      intros [|k] z Hk Hz.
      * injection Hz as <-. exact Hy.
      * apply (Hbetween k z); [lia|exact Hz].
    + subst y'. exists 0%nat. split; [lia|]. split; [reflexivity|].
      split; [exact Hy|]. intros k z Hk. lia.
  - cbn [lookup list_lookup] in Hi.
    assert (Hne : l <> []) by (intros ->; discriminate).
    destruct (IH i y' (Htail Hne) Hi) as (j & Hij & Hj & Hnz & Hbetween).
    exists (S j). split; [lia|]. split; [exact Hj|]. split; [exact Hnz|].
    intros [|k] z Hk Hz; [lia|]. apply (Hbetween k z); [lia|exact Hz].
Qed.

(** X1.  The [while] loop of the repair ends for every table: with
    more fuel than the table has zeros the loop gives the result of
    [zero_fill], which never is the exhaustion of the fuel; it is the
    [IndexError] when the last value is a zero and a table of the same
    length otherwise. *)
Theorem zero_fill_terminates ys fuel :
  (count_zeros ys < fuel)%nat ->
  zero_fill_loop fuel ys = zero_fill ys /\
  zero_fill ys <> OutOfFuel /\
  (last_is_zero ys = true ->
   zero_fill ys = Raise (IndexError (Z.of_nat (length ys)) (length ys))) /\
  (last_is_zero ys = false ->
   exists ys', zero_fill ys = Ok ys' /\ length ys' = length ys).
Proof.
  intros Hfuel. destruct fuel as [|fuel]; [lia|].
  rewrite zero_fill_loop_enough by lia. rewrite zero_fill_eq.
  split; [reflexivity|].
  destruct (last_is_zero ys); (split; [discriminate|]);
    split; try discriminate; intros _; [reflexivity|].
  eexists. split; [reflexivity|]. apply length_forward_fill.
Qed.

Lemma zero_fill_terminates_witness :
  zero_fill_loop 3 [0; 0; 5] = zero_fill [0; 0; 5] /\
  zero_fill [0; 0; 5] <> OutOfFuel.
Proof.
  destruct (zero_fill_terminates [0; 0; 5] 3) as (H1 & H2 & _).
  - simpl. lia.
  - split; assumption.
Defined.

(** X2.  What the repair returns: the table has the length it had,
    every value that was not a zero is where it was, and every entry
    holds the first value at or after its index that is not a zero. *)
Theorem zero_fill_next_nonzero ys ys' :
  zero_fill ys = Ok ys' ->
  length ys' = length ys /\
  (forall i y, ys !! i = Some y -> Qeq_bool y 0 = false -> ys' !! i = Some y) /\
  (forall i y',
      ys' !! i = Some y' ->
      exists j,
        (i <= j)%nat /\
        ys !! j = Some y' /\
        Qeq_bool y' 0 = false /\
        forall k y, (i <= k < j)%nat -> ys !! k = Some y -> Qeq_bool y 0 = true).
Proof.
  intros H. rewrite zero_fill_eq in H.
  destruct (last_is_zero ys) eqn:Hl; [discriminate|]. injection H as <-.
  split; [apply length_forward_fill|]. split.
  - intros i y Hi Hy.
    destruct (lookup_lt_is_Some_2 (forward_fill ys) i) as [y' Hy'].
    { rewrite length_forward_fill. eapply lookup_lt_Some, Hi. }
    destruct (forward_fill_next ys i y' Hl Hy') as (j & Hij & Hj & _ & Hb).
    destruct (decide (i = j)) as [->|Hne]; [congruence|].
    rewrite (Hb i y ltac:(lia) Hi) in Hy. discriminate.
  - intros i y' Hi. apply (forward_fill_next ys i y' Hl Hi).
Qed.

Lemma zero_fill_next_nonzero_witness :
  length [5; 5; 5; 7] = length [0; 0; 5; 7].
Proof.
  apply (proj1 (zero_fill_next_nonzero [0; 0; 5; 7] [5; 5; 5; 7] eq_refl)).
Defined.

End ZeroRepairMore.

(** ** The checks on the names, continued *)

Lemma contains_nil (sub : string) :
  contains sub "" = String.prefix sub "" || false.
Proof. reflexivity. Qed.

Lemma contains_prefix (sub s : string) :
  String.prefix sub s = true -> contains sub s = true.
Proof.
  intros H. destruct s as [|c s].
  - rewrite contains_nil, H. reflexivity.
  - rewrite contains_cons, H. reflexivity.
Qed.

(** [sub in s] holds exactly when [sub] lies somewhere in [s]. *)
Lemma contains_spec (sub s : string) :
  contains sub s = true <-> exists a b, s = a +:+ sub +:+ b.
Proof.
  split.
  - induction s as [|c s IH].
    + rewrite contains_nil, orb_false_r. intros H.
      apply prefix_spec in H as [r Hr]. exists "", r. exact Hr.
    + rewrite contains_cons. intros H. apply orb_true_iff in H as [H|H].
      * apply prefix_spec in H as [r Hr]. exists "", r. exact Hr.
      * destruct (IH H) as (a & b & ->). exists (String c a), b. reflexivity.
  - intros (a & b & ->). induction a as [|c a IH].
    + rewrite append_nil. apply contains_prefix, prefix_append.
    + rewrite append_cons, contains_cons, IH. apply orb_true_r.
Qed.

Section ChecksMore.

Context {I : Interp1d}.
Variable resource : string -> option (list (Q * Q)).

(** X3.  The curve construction touches the resource loader at most
    once and only for the configured file.  The file is opened exactly
    when the variable name is ["coszen"] or ends with ["true_coszen"]
    and ["coszen"] lies somewhere in the file name; otherwise a
    [ValueError] is raised and nothing is opened. *)
Theorem file_opened_iff p :
  let r := _make_prim_unc_spline resource p in
  let variable := delta_gamma_mu_variable p in
  let file := delta_gamma_mu_file p in
  (r.2 = [] \/ r.2 = [OpenResource file]) /\
  (r.2 = [OpenResource file] <->
   (variable = "coszen" \/ exists q, variable = q +:+ "true_coszen") /\
   exists a b, file = a +:+ "coszen" +:+ b) /\
  (r.2 = [] -> exists msg, r.1 = Raise (ValueError msg)).
Proof.
  intros r variable file. subst r.
  destruct (bare_variable_total variable) as [b Hb].
  destruct (String.eqb_spec b "coszen") as [->|Hne].
  - destruct (contains "coszen" file) eqn:Hf.
    + rewrite (make_checked resource p Hb Hf). cbn [fst snd].
      split; [right; reflexivity|]. split.
      * split; [intros _|reflexivity]. split.
        -- apply bare_variable_coszen, Hb.
        -- apply contains_spec, Hf.
      * discriminate.
    + rewrite (make_file_mismatch resource p Hb Hf). cbn [fst snd].
      split; [left; reflexivity|]. split.
      * split; [discriminate|]. intros [_ Hc].
        apply contains_spec in Hc. fold file in Hf. congruence.
      * intros _. eauto.
  - assert (Hb' : bare_variable_of variable <> Ok "coszen") by congruence.
    rewrite (make_unsupported_variable resource p Hb'). cbn [fst snd].
    split; [left; reflexivity|]. split.
    + split; [discriminate|]. intros [Hv _].
      apply bare_variable_coszen in Hv. contradiction.
    + intros _. eauto.
Qed.

(** X5.  The curve construction returns a curve exactly when both
    checks on the names pass, the file resolves to a table with at
    least two rows whose last y-value is not a zero, and the
    interpolation library accepts the padded, forward-filled table; the
    curve is the one the library returns and the file has been opened
    once. *)
Theorem make_prim_unc_spline_Ok_iff p f t :
  _make_prim_unc_spline resource p = (Ok f, t) <->
  bare_variable_of (delta_gamma_mu_variable p) = Ok "coszen" /\
  contains "coszen" (delta_gamma_mu_file p) = true /\
  t = [OpenResource (delta_gamma_mu_file p)] /\
  exists rows first final,
    resource (delta_gamma_mu_file p) = Some rows /\
    (2 <= length rows)%nat /\
    last_is_zero (map snd rows) = false /\
    forward_fill (map snd rows) !! 0%nat = Some first /\
    last (forward_fill (map snd rows)) = Some final /\
    interp1d (0.0 :: map fst rows ++ [1.0])
             (first :: forward_fill (map snd rows) ++ [final])
             (delta_gamma_mu_spline_kind p) = Ok f.
Proof.
  split.
  - intros H.
    destruct (bare_variable_total (delta_gamma_mu_variable p)) as [b Hb].
    destruct (String.eqb_spec b "coszen") as [->|Hne].
    2:{ rewrite make_unsupported_variable in H by congruence. discriminate. }
    destruct (contains "coszen" (delta_gamma_mu_file p)) eqn:Hf.
    2:{ rewrite (make_file_mismatch resource p Hb Hf) in H. discriminate. }
    rewrite (make_checked resource p Hb Hf) in H.
    injection H as H <-. split; [exact Hb|]. split; [reflexivity|].
    split; [reflexivity|].
    destruct (resource (delta_gamma_mu_file p)) as [rows|]; [|discriminate].
    unfold build_from in H.
    destruct (rows_of (squeeze_T rows)) as [[xs ys]| |] eqn:Hrows;
      [|discriminate|discriminate].
    apply rows_of_Ok in Hrows as (H2 & -> & ->).
    cbn [mbind result_bind fst snd] in H. rewrite zero_fill_eq in H.
    destruct (last_is_zero (map snd rows)) eqn:Hl; [discriminate|].
    cbn [mbind result_bind] in H. unfold getitem, getitem_last in H.
    destruct (forward_fill (map snd rows) !! 0%nat) as [first|] eqn:H0;
      [|discriminate].
    cbn [mbind result_bind] in H.
    destruct (last (forward_fill (map snd rows))) as [final|] eqn:Hlast;
      [|discriminate].
    cbn [mbind result_bind] in H.
    exists rows, first, final. repeat (split; [assumption || reflexivity|]).
    exact H.
  - intros (Hb & Hf & -> & rows & first & final & Hr & H2 & Hl & H0 & Hlast
             & Hi).
    rewrite (make_checked resource p Hb Hf), Hr.
    rewrite (build_from_eq rows _ (forward_fill (map snd rows)) first final);
      [rewrite Hi; reflexivity|exact H2| |exact H0|exact Hlast].
    rewrite zero_fill_eq, Hl. reflexivity.
Qed.

End ChecksMore.

(** X4.  The bare variable name is a suffix of the configured name
    with no ["true_"] left in it: the name itself, or what follows a
    ["true_"]; stripping it again changes nothing, and the stripping
    never raises. *)
Theorem bare_variable_is_clean_suffix (v : string) :
  exists b,
    bare_variable_of v = Ok b /\
    contains "true_" b = false /\
    (v = b \/ exists q, v = q +:+ "true_" +:+ b) /\
    bare_variable_of b = Ok b.
Proof.
  destruct (last_occurrence v) as [Hc|(q & t & -> & Ht)].
  - exists v. rewrite (bare_variable_clean v Hc).
    split; [reflexivity|]. split; [exact Hc|]. split; [left|]; reflexivity.
  - exists t. rewrite (bare_variable_after_last q t Ht).
    rewrite (bare_variable_clean t Ht).
    split; [reflexivity|]. split; [exact Ht|]. split; [|reflexivity].
    right. exists q. reflexivity.
Qed.

Lemma make_prim_unc_spline_Ok_iff_witness :
  bare_variable_of "true_coszen" = Ok "coszen" /\
  contains "coszen" "muon_coszen_unc.txt" = true.
Proof.
  destruct (proj1 (@make_prim_unc_spline_Ok_iff linear scenario_resource
                     (scenario_params "true_coszen") scenario_curve
                     [OpenResource "muon_coszen_unc.txt"])
                  scenario_curve_built) as (H1 & H2 & _).
  split; assumption.
Defined.

(** ** The padded table *)

Lemma increasing_snoc (xs : list Q) (b : Q) :
  increasing xs -> Forall (fun x => x < b) xs -> increasing (xs ++ [b]).
Proof.
  induction xs as [|x xs IH]; intros Hinc Hall; [exact I|].
  inversion Hall as [|? ? Hx Hall']; subst.
  destruct xs as [|x' xs].
  - simpl. auto.
  - destruct Hinc as [Hxx' Hinc]. split; [exact Hxx'|]. apply IH; assumption.
Qed.

Lemma increasing_push (a : Q) (xs : list Q) :
  increasing xs -> Forall (fun x => a < x) xs -> increasing (a :: xs).
Proof.
  intros Hinc Hall. destruct xs as [|x xs]; [exact I|].
  inversion Hall; subst. split; assumption.
Qed.

Lemma array_contains_lookup (l : list Q) i y :
  array_contains 0 l = false -> l !! i = Some y -> Qeq_bool y 0 = false.
Proof.
  revert i. induction l as [|z l IH]; intros i H Hi; [discriminate|].
  simpl in H. apply orb_false_elim in H as [Hz Hl].
  destruct i as [|i]; [injection Hi as <-; exact Hz|]. eapply IH; eauto.
Qed.

Lemma array_contains_app (l1 l2 : list Q) :
  array_contains 0 (l1 ++ l2) = array_contains 0 l1 || array_contains 0 l2.
Proof. apply existsb_app. Qed.

Section PaddedTable.

Context {I : Interp1d}.
Variable resource : string -> option (list (Q * Q)).

(** X6.  For a table with at least two rows, x-values strictly
    increasing and strictly between [0] and [1], and a last y-value that
    is not a zero, the curve construction hands the interpolation
    library x-values that are strictly increasing from [0.0] to [1.0],
    as many y-values, two more than the table has rows, and no y-value
    that is a zero. *)
Theorem padded_table_is_valid p rows :
  bare_variable_of (delta_gamma_mu_variable p) = Ok "coszen" ->
  contains "coszen" (delta_gamma_mu_file p) = true ->
  resource (delta_gamma_mu_file p) = Some rows ->
  (2 <= length rows)%nat ->
  last_is_zero (map snd rows) = false ->
  increasing (map fst rows) ->
  Forall (fun x => 0.0 < x /\ x < 1.0) (map fst rows) ->
  exists xvals yvals,
    _make_prim_unc_spline resource p
    = (interp1d xvals yvals (delta_gamma_mu_spline_kind p),
       [OpenResource (delta_gamma_mu_file p)]) /\
    increasing xvals /\
    head xvals = Some 0.0 /\
    last xvals = Some 1.0 /\
    length xvals = S (S (length rows)) /\
    length yvals = length xvals /\
    array_contains 0 yvals = false.
Proof.
  intros Hb Hf Hr Hne Hl Hinc Hin.
  set (ys := forward_fill (map snd rows)).
  assert (Hz : zero_fill (map snd rows) = Ok ys)
    by (rewrite zero_fill_eq, Hl; reflexivity).
  assert (Hlen : length ys = length rows)
    by (unfold ys; rewrite length_forward_fill, length_map; reflexivity).
  assert (Hpos : (0 < length ys)%nat) by lia.
  destruct (lookup_lt_is_Some_2 ys 0 Hpos) as [first H0].
  destruct (lookup_lt_is_Some_2 ys (Nat.pred (length ys))) as [final Hlast];
    [lia|].
  rewrite <- last_lookup in Hlast.
  exists (0.0 :: map fst rows ++ [1.0]), (first :: ys ++ [final]).
  split.
  { rewrite (make_checked resource p Hb Hf), Hr.
    rewrite (build_from_eq rows _ ys first final Hne Hz H0 Hlast).
    reflexivity. }
  split.
  { apply increasing_push.
    - apply increasing_snoc; [exact Hinc|].
      eapply Forall_impl; [exact Hin|]. intros x [_ Hx]. exact Hx.
    - apply Forall_app. split.
      + eapply Forall_impl; [exact Hin|]. intros x [Hx _]. exact Hx.
      + repeat constructor. }
  split; [reflexivity|].
  split; [rewrite app_comm_cons; apply last_snoc|].
  split; [simpl; rewrite length_app, length_map; simpl; lia|].
  split; [simpl; rewrite !length_app, length_map; simpl; lia|].
  assert (Hnz : array_contains 0 ys = false)
    by (eapply zero_fill_loop_no_zero, Hz).
  change (array_contains 0 (first :: ys ++ [final]))
    with (Qeq_bool first 0 || array_contains 0 (ys ++ [final])).
  rewrite array_contains_app, Hnz, (array_contains_lookup ys 0 first Hnz H0).
  rewrite last_lookup in Hlast.
  simpl. rewrite (array_contains_lookup ys _ final Hnz Hlast). reflexivity.
Qed.

End PaddedTable.

Lemma padded_table_is_valid_witness :
  exists xvals yvals,
    _make_prim_unc_spline (I:=linear) scenario_resource
                          (scenario_params "true_coszen")
    = (interp1d xvals yvals "linear", [OpenResource "muon_coszen_unc.txt"]) /\
    increasing xvals /\
    head xvals = Some 0.0 /\
    last xvals = Some 1.0 /\
    length xvals = 5%nat /\
    length yvals = length xvals /\
    array_contains 0 yvals = false.
Proof.
  apply (@padded_table_is_valid linear scenario_resource
           (scenario_params "true_coszen") scenario_table);
    try reflexivity.
  - simpl. lia.
  - repeat split; reflexivity.
  - repeat constructor; reflexivity.
Defined.

(** ** [setup_function], continued *)

Lemma for_each_first_raises {A B : Type} (body : A -> result B) a l e :
  body a = Raise e -> for_each body (a :: l) = Raise e.
Proof. intros H. simpl. rewrite H. reflexivity. Qed.

Lemma for_each_Ok_all {A B : Type} (body : A -> result B) l l' a :
  for_each body l = Ok l' -> a ∈ l -> exists b, body a = Ok b.
Proof.
  intros H Ha. apply for_each_Forall2 in H.
  apply list_elem_of_lookup in Ha as [i Hi].
  destruct (Forall2_lookup_l _ _ _ _ _ H Hi) as (b & _ & Hb). eauto.
Qed.

Section SetupMore.

Context {I : Interp1d}.
Variable resource : string -> option (list (Q * Q)).

Lemma setup_function_unfold (st : Stage) :
  setup_function resource st
  = match _make_prim_unc_spline resource (params st) with
    | (Ok f, t) =>
        (match for_each (setup_container f
                           (delta_gamma_mu_variable (params st))) (data st)
         with
         | Ok data' => Ok {| params := params st; data := data';
                             prim_unc_spline := Some f |}
         | Raise e => Raise e
         | OutOfFuel => OutOfFuel
         end, t)
    | (Raise e, t) => (Raise e, t)
    | (OutOfFuel, t) => (OutOfFuel, t)
    end.
Proof.
  unfold setup_function.
  destruct (_make_prim_unc_spline resource (params st)) as [[f| |] t];
    try reflexivity.
  cbn [mbind traced_bind lift].
  destruct (for_each _ (data st)); cbn [mbind traced_bind mret traced_ret];
    rewrite ?app_nil_r; reflexivity.
Qed.

(** X7.  A successful [setup_function] keeps the parameters and the
    number of batches, stores the curve that the curve construction
    returned, and writes only [rw_array] and [cr_rw_array]: every other
    array of every batch, the weights among them, is as it was. *)
Theorem setup_function_frame (st st' : Stage) t :
  setup_function resource st = (Ok st', t) ->
  params st' = params st /\
  (exists f,
      _make_prim_unc_spline resource (params st) = (Ok f, t) /\
      prim_unc_spline st' = Some f) /\
  length (data st') = length (data st) /\
  forall j c c',
    data st !! j = Some c ->
    data st' !! j = Some c' ->
    forall key, key <> "rw_array" -> key <> "cr_rw_array" ->
                c' !! key = c !! key.
Proof.
  intros H.
  destruct (setup_function_Ok resource st st' t H) as (f & Hf & Hp & Hs & H2).
  split; [exact Hp|]. split; [eauto|].
  split; [symmetry; eapply Forall2_length, H2|].
  intros j c c' Hj Hj' key Hk1 Hk2.
  destruct (Forall2_lookup_l _ _ _ _ _ H2 Hj) as (c1 & Hj1 & Hc).
  rewrite Hj' in Hj1. injection Hj1 as <-.
  destruct (setup_container_Ok _ _ _ _ Hc) as (xs & rw & _ & _ & ->).
  rewrite !lookup_insert_ne by congruence. reflexivity.
Qed.

(** X8.  When the curve is built and the first batch has no array
    under the configured variable name, [setup_function] raises
    [KeyError] for that name; and whenever some batch has none,
    [setup_function] does not succeed. *)
Theorem setup_function_missing_variable (st : Stage) :
  (forall f t c rest,
      _make_prim_unc_spline resource (params st) = (Ok f, t) ->
      data st = c :: rest ->
      c !! delta_gamma_mu_variable (params st) = None ->
      setup_function resource st
      = (Raise (KeyError (delta_gamma_mu_variable (params st))), t)) /\
  (forall c st' t,
      c ∈ data st ->
      c !! delta_gamma_mu_variable (params st) = None ->
      setup_function resource st <> (Ok st', t)).
Proof.
  split.
  - intros f t c rest Hf Hd Hc. rewrite setup_function_unfold, Hf, Hd.
    rewrite (for_each_first_raises _ c rest
               (KeyError (delta_gamma_mu_variable (params st))));
      [reflexivity|].
    unfold setup_container, lookup_key. rewrite Hc. reflexivity.
  - intros c st' t Hin Hc H.
    destruct (setup_function_Ok resource st st' t H) as (f & _ & _ & _ & H2).
    apply list_elem_of_lookup in Hin as [j Hj].
    destruct (Forall2_lookup_l _ _ _ _ _ H2 Hj) as (c' & _ & Hc').
    destruct (setup_container_Ok _ _ _ _ Hc') as (xs & rw & Hxs & _).
    congruence.
Qed.

(** X9.  [setup_function] touches the resource loader only through
    the curve construction, and when the curve construction raises,
    [setup_function] raises the same exception: no batch is set up
    without a curve. *)
Theorem setup_function_io (st : Stage) :
  (setup_function resource st).2
  = (_make_prim_unc_spline resource (params st)).2 /\
  (forall e,
      (_make_prim_unc_spline resource (params st)).1 = Raise e ->
      (setup_function resource st).1 = Raise e) /\
  (forall st',
      (setup_function resource st).1 = Ok st' ->
      exists f, (_make_prim_unc_spline resource (params st)).1 = Ok f).
Proof.
  rewrite setup_function_unfold.
  destruct (_make_prim_unc_spline resource (params st)) as [[f| |] t];
    cbn [fst snd].
  - split; [reflexivity|]. split; [intros e E; discriminate E|]. eauto.
  - split; [reflexivity|]. split; [intros e0 [= <-]; reflexivity|].
    intros st' E. discriminate E.
  - split; [reflexivity|]. split; intros x E; discriminate E.
Qed.

Lemma setup_container_again f v (c c' : gmap string (list Q)) :
  v <> "rw_array" ->
  v <> "cr_rw_array" ->
  setup_container f v c = Ok c' ->
  setup_container f v c' = Ok c'.
Proof.
  intros Hv1 Hv2 H.
  destruct (setup_container_Ok _ _ _ _ H) as (xs & rw & Hxs & Hrw & ->).
  unfold setup_container, lookup_key.
  rewrite !lookup_insert_ne by congruence. rewrite Hxs.
  cbn [mbind result_bind]. rewrite Hrw. cbn [mbind result_bind].
  rewrite lookup_insert_eq. cbn [mbind result_bind mret result_ret].
  f_equal. apply map_eq. intros k.
  rewrite !lookup_insert. repeat case_decide; congruence.
Qed.

Lemma accepted_variable_is_no_cache_key (p : Params) f t :
  _make_prim_unc_spline resource p = (Ok f, t) ->
  delta_gamma_mu_variable p <> "rw_array" /\
  delta_gamma_mu_variable p <> "cr_rw_array".
Proof.
  intros H.
  destruct (bare_variable_total (delta_gamma_mu_variable p)) as [b Hb].
  destruct (String.eqb_spec b "coszen") as [->|Hne].
  - split; intros E; rewrite E in Hb; discriminate Hb.
  - rewrite make_unsupported_variable in H by congruence. discriminate.
Qed.

(** X10.  [setup_function] is idempotent: run on the stage it
    returned, it returns that stage again (and reads the file again). *)
Theorem setup_function_idempotent (st st' : Stage) t :
  setup_function resource st = (Ok st', t) ->
  setup_function resource st' = (Ok st', t).
Proof.
  intros H.
  destruct (setup_function_Ok resource st st' t H) as (f & Hf & Hp & Hs & H2).
  destruct (accepted_variable_is_no_cache_key _ f t Hf) as [Hv1 Hv2].
  rewrite setup_function_unfold, Hp, Hf.
  rewrite (Forall2_for_each _ (data st') (data st')).
  - destruct st' as [p' d' s']. cbn [params data prim_unc_spline] in *.
    subst. reflexivity.
  - apply Forall2_same_length_lookup. split; [reflexivity|].
    intros j c1 c2 Hj1 Hj2. rewrite Hj1 in Hj2. injection Hj2 as <-.
    destruct (Forall2_lookup_r _ _ _ _ _ H2 Hj1) as (c & _ & Hc).
    eapply setup_container_again; eauto.
Qed.

(** X11.  From [Unconfigured] to use: after a successful
    [setup_function] on batches that hold one weight per event,
    [apply_function] succeeds and can be run again. *)
Theorem setup_then_apply (st st' : Stage) t :
  setup_function resource st = (Ok st', t) ->
  Forall (fun c : gmap string (list Q) =>
            exists ws xs,
              c !! "weights" = Some ws /\
              c !! delta_gamma_mu_variable (params st) = Some xs /\
              length ws = length xs) (data st) ->
  Ready st' /\
  exists st'', apply_function st' = Ok st'' /\ Ready st''.
Proof.
  intros H Hall.
  pose proof (setup_function_ready resource st st' t H Hall) as HR.
  split; [exact HR|].
  destruct (apply_function_ready st' HR) as (st'' & E & HR' & _).
  eauto.
Qed.

End SetupMore.

(** ** [apply_function], continued *)

Lemma imul_length ws fs ws' : imul ws fs = Ok ws' -> length ws' = length ws.
Proof.
  unfold imul. case_decide as Hl.
  - intros [= <-]. rewrite length_zip_with. lia.
  - destruct fs as [|f [|f' fs]]; try discriminate.
    intros [= <-]. apply length_map.
Qed.

Lemma apply_container_Ok s g (c c' : gmap string (list Q)) :
  apply_container s g c = Ok c' ->
  exists ws cr ws',
    c !! "weights" = Some ws /\
    c !! "cr_rw_array" = Some cr /\
    length ws' = length ws /\
    c' = <["weights" := ws']> c.
Proof.
  unfold apply_container, lookup_key. intros H.
  destruct (c !! "cr_rw_array") as [cr|]; [|discriminate].
  cbn [mbind result_bind] in H.
  destruct (c !! "weights") as [ws|]; [|discriminate].
  cbn [mbind result_bind] in H.
  destruct (imul ws _) as [ws'| |] eqn:Hm; try discriminate.
  injection H as <-. exists ws, cr, ws'.
  split; [reflexivity|]. split; [reflexivity|].
  split; [eapply imul_length, Hm|reflexivity].
Qed.

Lemma sum_cons (x : Q) (l : list Q) : sum (x :: l) = x + sum l.
Proof. reflexivity. Qed.

Lemma sum_replicate (n : nat) (w : Q) :
  sum (replicate n w) == inject_Z (Z.of_nat n) * w.
Proof.
  induction n as [|n IH].
  - simpl. ring.
  - cbn [replicate]. rewrite sum_cons, IH, inject_succ. ring.
Qed.

Lemma sum_centred (rw : list Q) : sum (shift_down rw (mean rw)) == 0.
Proof.
  destruct rw as [|r rw]; [reflexivity|].
  rewrite mean_Some by discriminate. unfold shift_down.
  rewrite sum_shift.
  pose proof (inject_length_nonzero (r :: rw) ltac:(discriminate)).
  field. assumption.
Qed.

Lemma sum_uniform_scaled s g w (cr : list Q) :
  Forall (fun x => 0 <= (1 + g * x) * s) cr ->
  sum (zip_with Qmult (replicate (length cr) w) (map (weight_factor s g) cr))
  == w * s * (inject_Z (Z.of_nat (length cr)) + g * sum cr).
Proof.
  induction 1 as [|x cr Hx _ IH].
  - simpl. ring.
  - cbn [length replicate map zip_with]. rewrite !sum_cons, IH, inject_succ.
    unfold weight_factor. rewrite (clip_inf_pos _ Hx). ring.
Qed.

Section ApplyMore.

Context {I : Interp1d}.

(** X12.  [apply_function] on a stage that was not set up: when the
    first batch has no [cr_rw_array], the [KeyError] names
    [cr_rw_array], whether or not the batch has weights; and whenever
    some batch lacks [cr_rw_array] or [weights], [apply_function] does
    not succeed. *)
Theorem apply_function_missing_arrays (st : Stage) :
  (forall c rest,
      data st = c :: rest ->
      c !! "cr_rw_array" = None ->
      apply_function st = Raise (KeyError "cr_rw_array")) /\
  (forall c rest cr,
      data st = c :: rest ->
      c !! "cr_rw_array" = Some cr ->
      c !! "weights" = None ->
      apply_function st = Raise (KeyError "weights")) /\
  (forall c st',
      c ∈ data st ->
      c !! "cr_rw_array" = None \/ c !! "weights" = None ->
      apply_function st <> Ok st').
Proof.
  split; [|split].
  - intros c rest Hd Hc. unfold apply_function.
    rewrite Hd, (for_each_first_raises _ c rest (KeyError "cr_rw_array"));
      [reflexivity|].
    unfold apply_container, lookup_key. rewrite Hc. reflexivity.
  - intros c rest cr Hd Hc Hw. unfold apply_function.
    rewrite Hd, (for_each_first_raises _ c rest (KeyError "weights"));
      [reflexivity|].
    unfold apply_container, lookup_key. rewrite Hc, Hw. reflexivity.
  - intros c st' Hin Hnone H. unfold apply_function in H.
    destruct (for_each _ (data st)) as [data'| |] eqn:E; try discriminate.
    destruct (for_each_Ok_all _ _ _ c E Hin) as [c' Hc'].
    destruct (apply_container_Ok _ _ _ _ Hc') as (ws & cr & ws' & Hw & Hcr & _).
    destruct Hnone; congruence.
Qed.

(** X13.  Whenever [apply_function] succeeds, in the [Ready] state or
    not, it keeps the parameters, the curve and the number of batches,
    and in every batch it writes [weights] only: every other array is as
    it was and the weights are as many as before. *)
Theorem apply_function_frame (st st' : Stage) :
  apply_function st = Ok st' ->
  params st' = params st /\
  prim_unc_spline st' = prim_unc_spline st /\
  length (data st') = length (data st) /\
  forall j c c',
    data st !! j = Some c ->
    data st' !! j = Some c' ->
    (forall key, key <> "weights" -> c' !! key = c !! key) /\
    exists ws ws',
      c !! "weights" = Some ws /\
      c' !! "weights" = Some ws' /\
      length ws' = length ws.
Proof.
  unfold apply_function. intros H.
  destruct (for_each _ (data st)) as [data'| |] eqn:E; try discriminate.
  injection H as <-. cbn [params data prim_unc_spline].
  apply for_each_Forall2 in E.
  split; [reflexivity|]. split; [reflexivity|].
  split; [symmetry; eapply Forall2_length, E|].
  intros j c c' Hj Hj'.
  destruct (Forall2_lookup_l _ _ _ _ _ E Hj) as (c1 & Hj1 & Hc).
  rewrite Hj' in Hj1. injection Hj1 as <-.
  destruct (apply_container_Ok _ _ _ _ Hc) as (ws & cr & ws' & Hw & _ & Hl & ->).
  split.
  - intros key Hk. apply lookup_insert_ne. congruence.
  - exists ws, ws'. split; [exact Hw|]. split; [apply lookup_insert_eq|exact Hl].
Qed.

(** X14.  [apply_function] never turns the sign of a weight.  In
    binary64, after one run a weight that was [<= 0] is [<= 0] or NaN, a
    weight that was a zero is a zero or NaN, and a weight that is
    neither a zero nor NaN afterwards was not a zero before and met a
    combination [(1 + delta_gamma_mu * cr_rw_array[i]) * atm_muon_scale]
    above [0]. *)
Theorem apply_function_keeps_sign
    (s g : float) (data data' : list (gmap string (list float)))
    j c c' ws cr ws' i w x w' :
  apply_function64 s g data = Ok data' ->
  data !! j = Some c ->
  data' !! j = Some c' ->
  c !! "weights" = Some ws ->
  c !! "cr_rw_array" = Some cr ->
  length cr = length ws ->
  c' !! "weights" = Some ws' ->
  ws !! i = Some w ->
  cr !! i = Some x ->
  ws' !! i = Some w' ->
  ((w <=? 0)%float = true -> (w' <=? 0)%float = negb (is_nan w')) /\
  (is_zero w = true -> is_zero w' = negb (is_nan w')) /\
  (is_nan w' = false -> is_zero w' = false ->
   is_zero w = false /\ (0 <? (1 + g * x) * s)%float = true).
Proof.
  intros E Hj Hj' Hw Hcr Hlen Hw' Hi Hx Hi'.
  rewrite (apply_function64_event s g data data' j c c' ws cr ws' i w x w'
             E Hj Hj' Hw Hcr Hlen Hw' Hi Hx Hi').
  apply weight64_keeps_sign.
Qed.

(** X15.  The parameters at their neutral values, in binary64.  With
    [delta_gamma_mu] a zero and a finite [cr_rw_array[i]], a weight is
    multiplied by [atm_muon_scale] when that is above [0], and keeps its
    value when [atm_muon_scale] is [1.0]: [1 + 0 * x] and [1 * s] are
    exact.  With [atm_muon_scale] a zero the weight becomes a zero or
    NaN, and a zero whenever the weight and
    [1 + delta_gamma_mu * cr_rw_array[i]] are finite. *)
Theorem apply_function_neutral_parameters
    (s g : float) (data data' : list (gmap string (list float)))
    j c c' ws cr ws' i w x w' :
  apply_function64 s g data = Ok data' ->
  data !! j = Some c ->
  data' !! j = Some c' ->
  c !! "weights" = Some ws ->
  c !! "cr_rw_array" = Some cr ->
  length cr = length ws ->
  c' !! "weights" = Some ws' ->
  ws !! i = Some w ->
  cr !! i = Some x ->
  ws' !! i = Some w' ->
  (is_zero g = true -> is_finite x = true -> (0 <? s)%float = true ->
   w' = (w * s)%float) /\
  (is_zero g = true -> is_finite x = true -> s = 1%float -> w' = w) /\
  (is_zero s = true ->
   is_zero w' = negb (is_nan w') /\
   (is_finite (1 + g * x) = true -> is_finite w = true ->
    is_zero w' = true)).
Proof.
  intros E Hj Hj' Hw Hcr Hlen Hw' Hi Hx Hi'.
  rewrite (apply_function64_event s g data data' j c c' ws cr ws' i w x w'
             E Hj Hj' Hw Hcr Hlen Hw' Hi Hx Hi').
  split; [|split].
  - intros Hg Hfx Hs.
    rewrite (weight_factor64_neutral s g x Hg Hfx), (clip64_positive s Hs).
    reflexivity.
  - intros Hg Hfx ->.
    rewrite (weight_factor64_neutral 1 g x Hg Hfx).
    change (clip64 1 0 infinity) with 1%float. apply mul64_one_r.
  - intros Hs. apply (weight64_scale_zero w s (1 + g * x) Hs).
Qed.

(** X16.  Why [rw_array] is centred, in exact arithmetic: were no
    operation to round, then for a batch whose events all carry the same
    weight, set up by the loop body of [setup_function] and then scaled
    by the loop body of [apply_function] with no factor clamped, the
    centred array would sum to [0] and the total weight would be
    multiplied by [atm_muon_scale], whatever [delta_gamma_mu] is.
    Rounding is outside this statement. *)
Theorem centred_shift_keeps_total
    f v s g w (c c1 c2 : gmap string (list Q)) xs cr :
  c !! v = Some xs ->
  c !! "weights" = Some (replicate (length xs) w) ->
  setup_container f v c = Ok c1 ->
  c1 !! "cr_rw_array" = Some cr ->
  Forall (fun x => 0 <= (1 + g * x) * s) cr ->
  apply_container s g c1 = Ok c2 ->
  exists ws2,
    c2 !! "weights" = Some ws2 /\
    sum cr == 0 /\
    sum ws2 == s * sum (replicate (length xs) w).
Proof.
  intros Hxs Hws Hsetup Hcr Hpos Happly.
  destruct (setup_container_Ok _ _ _ _ Hsetup) as (xs' & rw & Hxs' & Hrw & ->).
  rewrite Hxs in Hxs'. injection Hxs' as <-.
  pose proof (for_each_length _ _ _ Hrw) as Hlen.
  rewrite lookup_insert_eq in Hcr. injection Hcr as <-.
  assert (Hlcr : length (shift_down rw (mean rw)) = length xs)
    by (rewrite length_shift_down; exact Hlen).
  rewrite (apply_container_ready s g _ (replicate (length xs) w)
             (shift_down rw (mean rw))) in Happly.
  - injection Happly as <-. eexists. split; [apply lookup_insert_eq|].
    split; [apply sum_centred|].
    rewrite <- Hlcr at 1. rewrite (sum_uniform_scaled s g w _ Hpos).
    rewrite sum_centred, sum_replicate, Hlcr. ring.
  - rewrite !lookup_insert_ne by discriminate. exact Hws.
  - apply lookup_insert_eq.
  - rewrite length_replicate. exact Hlcr.
Qed.

End ApplyMore.

(** ** The further properties on the scenarios *)

(** A lookup through the inserts that built a batch. *)
Ltac through_inserts :=
  unfold single_event, negative_event, two_events, no_events, uniform_events;
  cbn [delta_gamma_mu_variable params unconfigured configured
       scenario_params];
  repeat lazymatch goal with
    | |- (<[?i := _]> ?m) !! ?j = _ =>
        tryif constr_eq i j then fail
        else rewrite (lookup_insert_ne m i j) by discriminate
    end;
  first [apply lookup_insert_eq | apply lookup_empty].

Lemma scenario_rw_called :
  call_array scenario_curve [0.3; 0.7] = Ok scenario_rw.
Proof. vm_compute. reflexivity. Qed.

Lemma two_events_set_up :
  setup_function scenario_resource (unconfigured [two_events])
  = (Ok (configured
           [<["cr_rw_array" := shift_down scenario_rw (mean scenario_rw)]>
              (<["rw_array" := scenario_rw]> two_events)]),
     [OpenResource "muon_coszen_unc.txt"]).
Proof.
  apply (setup_function_single two_events [0.3; 0.7] scenario_rw);
    [through_inserts|exact scenario_rw_called].
Qed.

(** The weights of a batch survive [setup_function]. *)
Lemma setup_function_frame_witness :
  exists st' c',
    setup_function scenario_resource (unconfigured [two_events])
    = (Ok st', [OpenResource "muon_coszen_unc.txt"]) /\
    data st' !! 0%nat = Some c' /\
    c' !! "weights" = Some [10.0; 5.0].
Proof.
  eexists _, _. split; [exact two_events_set_up|]. split; [reflexivity|].
  destruct (@setup_function_frame linear scenario_resource _ _ _
              two_events_set_up) as (_ & _ & _ & H).
  rewrite (H 0%nat two_events _ eq_refl eq_refl "weights")
    by discriminate.
  through_inserts.
Defined.

(** A batch that was never given its [true_coszen]. *)
Lemma setup_function_missing_variable_witness :
  setup_function scenario_resource (unconfigured [single_event])
  = (Raise (KeyError "true_coszen"), [OpenResource "muon_coszen_unc.txt"]).
Proof.
  apply (proj1 (@setup_function_missing_variable linear scenario_resource
                  (unconfigured [single_event]))
               scenario_curve _ single_event []);
    [exact scenario_curve_built|reflexivity|through_inserts].
Defined.

(** The batch of two events, set up twice. *)
Lemma setup_function_idempotent_witness :
  exists st',
    setup_function scenario_resource (unconfigured [two_events])
    = (Ok st', [OpenResource "muon_coszen_unc.txt"]) /\
    setup_function scenario_resource st'
    = (Ok st', [OpenResource "muon_coszen_unc.txt"]).
Proof.
  eexists. split; [exact two_events_set_up|].
  apply (@setup_function_idempotent linear scenario_resource _ _ _
           two_events_set_up).
Defined.

(** The batch of two events, set up and applied. *)
Lemma setup_then_apply_witness :
  exists st' st'',
    setup_function scenario_resource (unconfigured [two_events])
    = (Ok st', [OpenResource "muon_coszen_unc.txt"]) /\
    apply_function st' = Ok st''.
Proof.
  destruct (@setup_then_apply linear scenario_resource _ _ _
              two_events_set_up) as (_ & st'' & E & _).
  - repeat constructor. exists [10.0; 5.0], [0.3; 0.7].
    repeat split; through_inserts.
  - eexists _, st''. split; [exact two_events_set_up|exact E].
Defined.

(** [apply_function] before [setup_function]. *)
Lemma apply_function_missing_arrays_witness :
  apply_function (unconfigured [two_events]) = Raise (KeyError "cr_rw_array").
Proof.
  apply (proj1 (@apply_function_missing_arrays linear
                  (unconfigured [two_events])) two_events []);
    [reflexivity|through_inserts].
Defined.

(** Scenario 4: the cached arrays are still there after the run. *)
Lemma apply_function_frame_witness :
  exists st' c',
    apply_function (configured [single_event]) = Ok st' /\
    data st' !! 0%nat = Some c' /\
    c' !! "cr_rw_array" = Some [0.3].
Proof.
  pose proof (apply_function_single single_event [10.0] [0.3]
                ltac:(through_inserts) ltac:(through_inserts) eq_refl) as E.
  eexists _, _. split; [exact E|]. split; [reflexivity|].
  destruct (@apply_function_frame linear _ _ E) as (_ & _ & _ & H).
  destruct (H 0%nat single_event _ eq_refl eq_refl) as [Hkeys _].
  rewrite (Hkeys "cr_rw_array") by discriminate. through_inserts.
Defined.

(** The event with the weight [-1.0] keeps a weight [<= 0]. *)
Lemma apply_function_keeps_sign_witness :
  apply_function64 1.5 2.0 [negative_event64]
  = Ok [<["weights" := [(-1.5)%float]]> negative_event64] /\
  (-1.5 <=? 0)%float = negb (is_nan (-1.5)).
Proof.
  pose proof (proj1 negative_weight_in_binary64) as E.
  split; [exact E|].
  apply (proj1 (apply_function_keeps_sign 1.5 2.0 [negative_event64] _
                  0%nat negative_event64 _ [(-1.0)%float] [0.0%float]
                  [(-1.5)%float] 0%nat (-1.0) 0.0 (-1.5) E eq_refl eq_refl
                  (lookup_insert_eq _ _ _) negative_event64_cr eq_refl
                  (lookup_insert_eq _ _ _) eq_refl eq_refl eq_refl)).
  reflexivity.
Defined.

(** Scenario 4 at neutral parameters: the weight stays [10.0]. *)
Lemma apply_function_neutral_parameters_witness :
  exists w',
    apply_function64 1.0 0.0 [single_event64]
    = Ok [<["weights" := [w']]> single_event64] /\
    w' = 10.0%float.
Proof.
  pose proof (apply_function64_single 1.0 0.0 single_event64 [10.0%float]
                [0.3%float] (lookup_insert_eq _ _ _) single_event64_cr
                eq_refl) as E.
  eexists. split; [exact E|].
  apply (proj1 (proj2 (apply_function_neutral_parameters 1.0 0.0
                         [single_event64] _ 0%nat single_event64 _
                         [10.0%float] [0.3%float] _ 0%nat 10.0 0.3 _
                         E eq_refl eq_refl (lookup_insert_eq _ _ _)
                         single_event64_cr eq_refl (lookup_insert_eq _ _ _)
                         eq_refl eq_refl eq_refl))); reflexivity.
Defined.

(** Two events of weight [10.0]: the total [20.0] becomes [30.0]. *)
Lemma centred_shift_keeps_total_witness :
  exists c1 c2 ws2,
    setup_container scenario_curve "true_coszen" uniform_events = Ok c1 /\
    apply_container 1.5 2.0 c1 = Ok c2 /\
    c2 !! "weights" = Some ws2 /\
    sum ws2 == 30.0.
Proof.
  set (cr := shift_down scenario_rw (mean scenario_rw)).
  set (c1 := <["cr_rw_array" := cr]> (<["rw_array" := scenario_rw]> uniform_events)).
  assert (E1 : setup_container scenario_curve "true_coszen" uniform_events
               = Ok c1).
  { unfold setup_container, lookup_key.
    replace (uniform_events !! "true_coszen") with (Some [0.3; 0.7])
      by (symmetry; through_inserts).
    cbn [mbind result_bind]. rewrite scenario_rw_called.
    cbn [mbind result_bind]. rewrite lookup_insert_eq. reflexivity. }
  assert (Hw1 : c1 !! "weights" = Some [10.0; 10.0])
    by (unfold c1; through_inserts).
  assert (Hcr1 : c1 !! "cr_rw_array" = Some cr) by apply lookup_insert_eq.
  set (c2 := <["weights" := zip_with Qmult [10.0; 10.0]
                              (map (weight_factor 1.5 2.0) cr)]> c1).
  assert (E2 : apply_container 1.5 2.0 c1 = Ok c2)
    by apply (apply_container_ready 1.5 2.0 c1 [10.0; 10.0] cr Hw1 Hcr1 eq_refl).
  destruct (@centred_shift_keeps_total linear scenario_curve "true_coszen"
              1.5 2.0 10.0 uniform_events c1 c2 [0.3; 0.7] cr)
    as (ws2 & H2 & _ & Hs);
    [through_inserts|through_inserts|exact E1|exact Hcr1| |exact E2|].
  - repeat constructor; vm_compute; discriminate.
  - exists c1, c2, ws2. split; [exact E1|]. split; [exact E2|].
    split; [exact H2|]. rewrite Hs. reflexivity.
Defined.

(** ** The two loop bodies together *)

Lemma clip_inf_Qeq (x y : Q) : x == y -> clip x 0 inf == clip y 0 inf.
Proof.
  intros E. destruct (Qlt_le_dec x 0) as [Hx|Hx].
  - rewrite (clip_inf_neg x Hx), (clip_inf_neg y) by (rewrite <- E; exact Hx).
    reflexivity.
  - rewrite (clip_inf_pos x Hx), (clip_inf_pos y) by (rewrite <- E; exact Hx).
    exact E.
Qed.

Section LoopBodies.

Context {I : Interp1d}.

(** X17.  What [setup_function] caches in a batch: [rw_array] holds
    the curve at every event's value of the configured variable, in
    order, and [cr_rw_array] holds the same values with the mean of
    [rw_array] taken off; both have one entry per event. *)
Theorem setup_container_caches_curve
    f v (c c' : gmap string (list Q)) xs :
  c !! v = Some xs ->
  setup_container f v c = Ok c' ->
  exists rw cr,
    c' !! "rw_array" = Some rw /\
    c' !! "cr_rw_array" = Some cr /\
    length rw = length xs /\
    length cr = length xs /\
    (forall i x, xs !! i = Some x ->
                 exists r, call f x = Ok r /\ rw !! i = Some r) /\
    (forall i r norm,
        rw !! i = Some r -> mean rw = Some norm -> cr !! i = Some (r - norm)).
Proof.
  intros Hxs H.
  destruct (setup_container_Ok _ _ _ _ H) as (xs' & rw & Hxs' & Hrw & ->).
  rewrite Hxs in Hxs'. injection Hxs' as <-.
  pose proof (for_each_Forall2 _ _ _ Hrw) as H2.
  exists rw, (shift_down rw (mean rw)).
  split; [rewrite lookup_insert_ne by discriminate; apply lookup_insert_eq|].
  split; [apply lookup_insert_eq|].
  split; [symmetry; eapply Forall2_length, H2|].
  split; [rewrite length_shift_down; symmetry; eapply Forall2_length, H2|].
  split.
  - intros i x Hi.
    destruct (Forall2_lookup_l _ _ _ _ _ H2 Hi) as (r & Hr & Hcall). eauto.
  - intros i r norm Hi Hn. rewrite Hn. unfold shift_down.
    rewrite list_lookup_fmap, Hi. reflexivity.
Qed.

(** X18.  Two applications with different parameter values: on a
    batch with its arrays in place, scaling with
    [(atm_muon_scale, delta_gamma_mu) = (s1, g1)] and then with
    [(s2, g2)] succeeds, as does the other order, and every event ends
    with its weight times both factors, taken in the order of the
    applications.  In exact arithmetic both orders give the same
    weight.  In binary64 they differ by rounding: for the event of
    scenario 4 and the parameters [(1.5, 2.0)] and [(0.5, -1.0)] one
    order gives [8.4], the other [8.400000000000002]. *)
Theorem apply_container_commutes :
  (forall s1 g1 s2 g2 (c : gmap string (list Q)) ws cr,
      c !! "weights" = Some ws ->
      c !! "cr_rw_array" = Some cr ->
      length cr = length ws ->
      exists c1 c12 c2 c21 ws12 ws21,
        apply_container s1 g1 c = Ok c1 /\
        apply_container s2 g2 c1 = Ok c12 /\
        apply_container s2 g2 c = Ok c2 /\
        apply_container s1 g1 c2 = Ok c21 /\
        c12 !! "weights" = Some ws12 /\
        c21 !! "weights" = Some ws21 /\
        forall i w x,
          ws !! i = Some w ->
          cr !! i = Some x ->
          exists w12 w21,
            ws12 !! i = Some w12 /\
            ws21 !! i = Some w21 /\
            w12 == w * (weight_factor s1 g1 x * weight_factor s2 g2 x) /\
            w21 == w12) /\
  (forall s1 g1 s2 g2 (c : gmap string (list float)) ws cr,
      c !! "weights" = Some ws ->
      c !! "cr_rw_array" = Some cr ->
      length cr = length ws ->
      exists c1 c12 c2 c21 ws12 ws21,
        apply_container64 s1 g1 c = Ok c1 /\
        apply_container64 s2 g2 c1 = Ok c12 /\
        apply_container64 s2 g2 c = Ok c2 /\
        apply_container64 s1 g1 c2 = Ok c21 /\
        c12 !! "weights" = Some ws12 /\
        c21 !! "weights" = Some ws21 /\
        forall i w x,
          ws !! i = Some w ->
          cr !! i = Some x ->
          ws12 !! i = Some (w * weight_factor64 s1 g1 x
                              * weight_factor64 s2 g2 x)%float /\
          ws21 !! i = Some (w * weight_factor64 s2 g2 x
                              * weight_factor64 s1 g1 x)%float) /\
  (let c1 := <["weights" := [24.000000000000004%float]]> single_event64 in
   let c12 := <["weights" := [8.4%float]]> c1 in
   let c2 := <["weights" := [3.5%float]]> single_event64 in
   let c21 := <["weights" := [8.400000000000002%float]]> c2 in
   apply_container64 1.5 2.0 single_event64 = Ok c1 /\
   apply_container64 0.5 (-1.0) c1 = Ok c12 /\
   apply_container64 0.5 (-1.0) single_event64 = Ok c2 /\
   apply_container64 1.5 2.0 c2 = Ok c21 /\
   (8.4 =? 8.400000000000002)%float = false).
Proof.
  split; [|split].
  - intros s1 g1 s2 g2 c ws cr Hw Hcr Hl.
    pose proof (apply_container_ready s1 g1 c ws cr Hw Hcr Hl) as E1.
    pose proof (apply_container_ready s2 g2 c ws cr Hw Hcr Hl) as E2.
    set (ws1 := zip_with Qmult ws (map (weight_factor s1 g1) cr)) in *.
    set (ws2 := zip_with Qmult ws (map (weight_factor s2 g2) cr)) in *.
    assert (Hl1 : length cr = length ws1)
      by (unfold ws1; rewrite length_scaled; auto).
    assert (Hl2 : length cr = length ws2)
      by (unfold ws2; rewrite length_scaled; auto).
    pose proof (apply_container_ready s2 g2 (<["weights" := ws1]> c) ws1 cr
                  (lookup_insert_eq _ _ _)
                  ltac:(rewrite lookup_insert_ne by discriminate; exact Hcr)
                  Hl1) as E12.
    pose proof (apply_container_ready s1 g1 (<["weights" := ws2]> c) ws2 cr
                  (lookup_insert_eq _ _ _)
                  ltac:(rewrite lookup_insert_ne by discriminate; exact Hcr)
                  Hl2) as E21.
    eexists _, _, _, _, _, _.
    split; [exact E1|]. split; [exact E12|].
    split; [exact E2|]. split; [exact E21|].
    split; [apply lookup_insert_eq|]. split; [apply lookup_insert_eq|].
    intros i w x Hi Hx.
    pose proof (lookup_scaled ws cr s1 g1 i w x Hi Hx) as Hi1. fold ws1 in Hi1.
    pose proof (lookup_scaled ws cr s2 g2 i w x Hi Hx) as Hi2. fold ws2 in Hi2.
    eexists _, _.
    split; [apply (lookup_scaled ws1 cr s2 g2 i _ x Hi1 Hx)|].
    split; [apply (lookup_scaled ws2 cr s1 g1 i _ x Hi2 Hx)|].
    split; ring.
  - intros s1 g1 s2 g2 c ws cr Hw Hcr Hl.
    pose proof (apply_container64_Ok s1 g1 c ws cr Hw Hcr Hl) as E1.
    pose proof (apply_container64_Ok s2 g2 c ws cr Hw Hcr Hl) as E2.
    set (ws1 := zip_with PrimFloat.mul ws (map (weight_factor64 s1 g1) cr))
      in *.
    set (ws2 := zip_with PrimFloat.mul ws (map (weight_factor64 s2 g2) cr))
      in *.
    assert (Hl1 : length cr = length ws1)
      by (unfold ws1; rewrite length_scaled64; auto).
    assert (Hl2 : length cr = length ws2)
      by (unfold ws2; rewrite length_scaled64; auto).
    pose proof (apply_container64_Ok s2 g2 (<["weights" := ws1]> c) ws1 cr
                  (lookup_insert_eq _ _ _)
                  ltac:(rewrite lookup_cr_after_weights; exact Hcr)
                  Hl1) as E12.
    pose proof (apply_container64_Ok s1 g1 (<["weights" := ws2]> c) ws2 cr
                  (lookup_insert_eq _ _ _)
                  ltac:(rewrite lookup_cr_after_weights; exact Hcr)
                  Hl2) as E21.
    eexists _, _, _, _, _, _.
    split; [exact E1|]. split; [exact E12|].
    split; [exact E2|]. split; [exact E21|].
    split; [apply lookup_insert_eq|]. split; [apply lookup_insert_eq|].
    intros i w x Hi Hx.
    pose proof (lookup_scaled64 ws cr s1 g1 i w x Hi Hx) as Hi1.
    fold ws1 in Hi1.
    pose proof (lookup_scaled64 ws cr s2 g2 i w x Hi Hx) as Hi2.
    fold ws2 in Hi2.
    split; [apply (lookup_scaled64 ws1 cr s2 g2 i _ x Hi1 Hx)|].
    apply (lookup_scaled64 ws2 cr s1 g1 i _ x Hi2 Hx).
  - exact orders_differ_in_binary64.
Qed.

(** X19.  A batch with a single event does not feel [delta_gamma_mu]:
    [setup_function] centres its one value to zero, so the loop body of
    [apply_function] multiplies the weight by [clip(atm_muon_scale, 0,
    inf)] whatever [delta_gamma_mu] is. *)
Theorem single_event_ignores_shift
    f v s g (c c1 c2 : gmap string (list Q)) x0 w :
  c !! v = Some [x0] ->
  setup_container f v c = Ok c1 ->
  c1 !! "weights" = Some [w] ->
  apply_container s g c1 = Ok c2 ->
  exists cr0 w',
    c1 !! "cr_rw_array" = Some [cr0] /\
    cr0 == 0 /\
    c2 !! "weights" = Some [w'] /\
    w' == w * clip s 0 inf.
Proof.
  intros Hxs Hsetup Hw Happly.
  destruct (setup_container_Ok _ _ _ _ Hsetup) as (xs' & rw & Hxs' & Hrw & E).
  rewrite Hxs in Hxs'. injection Hxs' as <-.
  pose proof (for_each_length _ _ _ Hrw) as Hlen.
  destruct rw as [|r [|r' rw]]; try discriminate Hlen.
  set (cr0 := r - sum [r] / inject_Z (Z.of_nat (size [r]))).
  assert (Hcr : c1 !! "cr_rw_array" = Some [cr0])
    by (rewrite E; apply lookup_insert_eq).
  assert (H0 : cr0 == 0) by (unfold cr0, sum, size; simpl; field).
  rewrite (apply_container_ready s g c1 [w] _ Hw Hcr eq_refl) in Happly.
  injection Happly as <-.
  eexists _, _. split; [exact Hcr|]. split; [exact H0|].
  split; [apply lookup_insert_eq|].
  cbn [map zip_with]. unfold weight_factor.
  rewrite (clip_inf_Qeq _ s) by (rewrite H0; ring). reflexivity.
Qed.

End LoopBodies.

Lemma uniform_events_set_up :
  setup_container scenario_curve "true_coszen" uniform_events
  = Ok (<["cr_rw_array" := shift_down scenario_rw (mean scenario_rw)]>
          (<["rw_array" := scenario_rw]> uniform_events)).
Proof.
  unfold setup_container, lookup_key.
  replace (uniform_events !! "true_coszen") with (Some [0.3; 0.7])
    by (symmetry; through_inserts).
  cbn [mbind result_bind]. rewrite scenario_rw_called.
  cbn [mbind result_bind]. rewrite lookup_insert_eq. reflexivity.
Qed.

(** The curve of scenario 1 at the two events, cached. *)
Lemma setup_container_caches_curve_witness :
  exists c' rw cr,
    setup_container scenario_curve "true_coszen" uniform_events = Ok c' /\
    c' !! "rw_array" = Some rw /\
    c' !! "cr_rw_array" = Some cr /\
    length rw = 2%nat /\
    length cr = 2%nat.
Proof.
  destruct (@setup_container_caches_curve linear scenario_curve "true_coszen"
              uniform_events _ [0.3; 0.7] ltac:(through_inserts)
              uniform_events_set_up)
    as (rw & cr & Hrw & Hcr & Hl1 & Hl2 & _).
  eexists _, rw, cr. split; [exact uniform_events_set_up|]. auto.
Defined.

(** Scenario 4 with a second parameter point, in both orders. *)
Lemma apply_container_commutes_witness :
  exists c1 c12 c2 c21 ws12 ws21,
    apply_container 1.5 2.0 single_event = Ok c1 /\
    apply_container 0.5 (-1.0) c1 = Ok c12 /\
    apply_container 0.5 (-1.0) single_event = Ok c2 /\
    apply_container 1.5 2.0 c2 = Ok c21 /\
    c12 !! "weights" = Some ws12 /\
    c21 !! "weights" = Some ws21.
Proof.
  destruct (proj1 apply_container_commutes 1.5 2.0 0.5 (-1.0) single_event
              [10.0] [0.3] ltac:(through_inserts) ltac:(through_inserts)
              eq_refl)
    as (c1 & c12 & c2 & c21 & ws12 & ws21 & H1 & H2 & H3 & H4 & H5 & H6 & _).
  exists c1, c12, c2, c21, ws12, ws21. auto 10.
Defined.

Lemma one_event_called : call_array scenario_curve [0.3] = Ok [12000000 # 4000000].
Proof. vm_compute. reflexivity. Qed.

(** One event of weight [10.0] at scale [1.5]: the weight is [15.0]
    whatever the shift. *)
Lemma single_event_ignores_shift_witness :
  exists c1 c2 w',
    setup_container scenario_curve "true_coszen" one_event = Ok c1 /\
    apply_container 1.5 2.0 c1 = Ok c2 /\
    c2 !! "weights" = Some [w'] /\
    w' == 15.0.
Proof.
  set (rw := [12000000 # 4000000]).
  set (c1 := <["cr_rw_array" := shift_down rw (mean rw)]>
               (<["rw_array" := rw]> one_event)).
  assert (E1 : setup_container scenario_curve "true_coszen" one_event = Ok c1).
  { unfold setup_container, lookup_key.
    replace (one_event !! "true_coszen") with (Some [0.3])
      by (symmetry; unfold one_event; through_inserts).
    cbn [mbind result_bind]. rewrite one_event_called.
    cbn [mbind result_bind]. rewrite lookup_insert_eq. reflexivity. }
  assert (Hw : c1 !! "weights" = Some [10.0])
    by (unfold c1, one_event; through_inserts).
  assert (Hcr : c1 !! "cr_rw_array" = Some (shift_down rw (mean rw)))
    by apply lookup_insert_eq.
  set (c2 := <["weights" := zip_with Qmult [10.0]
                              (map (weight_factor 1.5 2.0)
                                   (shift_down rw (mean rw)))]> c1).
  assert (E2 : apply_container 1.5 2.0 c1 = Ok c2)
    by apply (apply_container_ready 1.5 2.0 c1 [10.0] _ Hw Hcr eq_refl).
  destruct (@single_event_ignores_shift linear scenario_curve "true_coszen"
              1.5 2.0 one_event c1 c2 0.3 10.0
              ltac:(unfold one_event; through_inserts) E1 Hw E2)
    as (cr0 & w' & _ & _ & Hw' & Hval).
  exists c1, c2, w'. split; [exact E1|]. split; [exact E2|].
  split; [exact Hw'|]. rewrite Hval. reflexivity.
Defined.
